(** * mcp-screenshot-poc: the routes, the Gemini wrappers, the helper script and the pages

  A shallow embedding of
  - [src/app/api/screenshot/route.ts]  (module [Screenshot], and
                                        [ScreenshotThrowing] for the revision
                                        that throws its 400 response),
  - [src/utils/gemini.ts]              (modules [GeminiText] and [GeminiTools],
                                        the two revisions of the file),
  - [src/app/api/chat/route.ts]        (modules [Chat] and [ChatLet], the two
                                        function-calling revisions, and
                                        [ChatTwoCall], the earlier two-call
                                        revision),
  - [src/app/api/ai-screenshot/route.ts] (module [AiScreenshot]),
  - [scripts/take-screenshot.mjs]      (modules [Script] and [ScriptFn], the
                                        two revisions of the helper script,
                                        over [Process]),
  - [src/app/page.tsx]                 (modules [ShotPage] and [ChatPage], the
                                        handlers of the two revisions of the
                                        page, over [Client]),
  followed by the properties of the specification and by further properties
  of the code.

  JavaScript strings are sequences of UTF-16 code units, the session [Map]
  is a [gmap], and everything a handler asks of the outside world (the clock,
  [uuidv4], the Gemini API, [fetch], the child process) is a node of a small
  free monad, so that "no call is made" and "for every outcome of the call"
  are statements about the program itself.  In the routes and the pages,
  [console.log] and [console.error] have no effect on any response and are
  left out; in the helper script, whose output streams are what its parent
  reads, they are writes to the two streams. *)

From Stdlib Require Import ZArith Ascii String.
From stdpp Require Import gmap list pretty.

Open Scope Z_scope.

(* ===================================================================== *)
(** ** JavaScript values *)
(* ===================================================================== *)

Module JS.

(** A string is its list of UTF-16 code units. *)
Abbreviation jsstring := (list N) (only parsing).

(** An ASCII literal of the source. *)
Definition str (s : string) : jsstring :=
  (fun a => N_of_ascii a) <$> list_ascii_of_string s.

(** The double quote, for literals that contain one. *)
Definition dquote : jsstring := [34%N].

(** [!!s] is false exactly for the empty string. *)
Definition truthy (s : jsstring) : bool :=
  match s with [] => false | _ :: _ => true end.

(** ECMAScript [WhiteSpace] and [LineTerminator] code units, the ones
    [String.prototype.trim] removes. *)
Definition is_space (c : N) : bool :=
  bool_decide (c ∈ [9; 10; 11; 12; 13; 32; 160; 5760; 8232; 8233; 8239;
                    8287; 12288; 65279]%N)
  || ((8192 <=? c)%N && (c <=? 8202)%N).

Fixpoint trimStart (s : jsstring) : jsstring :=
  match s with
  | c :: s' => if is_space c then trimStart s' else s
  | [] => []
  end.

Definition trimEnd (s : jsstring) : jsstring := reverse (trimStart (reverse s)).

Definition trim (s : jsstring) : jsstring := trimEnd (trimStart s).

Fixpoint startsWith (s p : jsstring) : bool :=
  match p, s with
  | [], _ => true
  | c :: p', d :: s' => bool_decide (c = d) && startsWith s' p'
  | _ :: _, [] => false
  end.

(** [`${code}`] for an exit code, which is a number or [null]. *)
Definition show_code (code : option Z) : jsstring :=
  match code with
  | Some n => str (pretty n)
  | None => str "null"
  end.

(** A string-valued slot that may also hold [null] or [undefined]. *)
Inductive value : Type :=
| Undefined
| Null
| Str (s : jsstring).

(** Truthiness of such a slot. *)
Definition truthy_value (v : value) : bool :=
  match v with
  | Str s => truthy s
  | _ => false
  end.

(** The result of [JSON.parse]. *)
#[local] Unset Elimination Schemes.
Inductive JSON : Type :=
| JNull
| JBool (b : bool)
| JNumber (n : Z)
| JString (s : jsstring)
| JArray (items : list JSON)
| JObject (fields : list (jsstring * JSON)).
#[local] Set Elimination Schemes.

(** Property read on a parsed object; a repeated key keeps its last value. *)
Fixpoint assoc_last (k : jsstring) (fields : list (jsstring * JSON))
    (found : option JSON) : option JSON :=
  match fields with
  | [] => found
  | (k', v) :: rest =>
      assoc_last k rest (if bool_decide (k' = k) then Some v else found)
  end.

Definition prop (k : jsstring) (fields : list (jsstring * JSON)) : option JSON :=
  assoc_last k fields None.

(** An [Error] instance. *)
Record Error : Type := mkError { message : jsstring }.

(** What a [catch] clause receives. *)
Inductive thrown : Type :=
| ThrownError (e : Error)
| ThrownOther.

(** [new Date()], as milliseconds since the epoch. *)
Definition Date := Z.

End JS.
Import JS.

#[global] Instance value_eq_dec : EqDecision value.
Proof. solve_decision. Defined.

#[global] Instance Error_eq_dec : EqDecision Error.
Proof. solve_decision. Defined.

(** An issue of a failed [zod] parse: the path of the offending property and,
    where the schema gives one, its message. *)
Inductive ZodIssue : Type :=
| invalid_type (path : list jsstring)
| invalid_union (path : list jsstring)
| invalid_string (path : list jsstring) (msg : jsstring)
| too_small (path : list jsstring) (msg : jsstring).

(** Library functions of the JavaScript runtime and of [zod] that the handlers
  call and whose code is not part of the repository. *)
Class Runtime : Type := {
  (** [new URL(s).toString()], or [None] when the constructor throws *)
  URL_href : jsstring -> option jsstring;
  (** the check behind [z.string().url()] *)
  zod_url : jsstring -> bool;
  (** [String.prototype.toUpperCase] *)
  toUpperCase : jsstring -> jsstring;
  (** the [message] of the [ZodError] raised for a list of issues *)
  zod_message : list ZodIssue -> jsstring;
  (** [path.join(process.cwd(), 'scripts', 'take-screenshot.mjs')] *)
  script_path : jsstring;
}.

(* ===================================================================== *)
(** ** Calls to the outside world, and programs *)
(* ===================================================================== *)

Module Eff.

(** One entry of the [contents] array sent to Gemini: [{ role, parts: [{ text }] }]. *)
Record Content : Type := mkContent { c_role : jsstring; c_text : jsstring }.

(** [generationConfig]; the temperature is kept in tenths (0.7 is 7, 0.1 is 1). *)
Record GenerationConfig : Type := mkConfig {
  temperature_tenths : Z;
  maxOutputTokens : Z;
}.

(** A function call of a Gemini response: [{ name, args }], where the only
    argument the declaration of [take_screenshot] has is [url]. *)
Record FunctionCall : Type := mkFunctionCall { fc_name : jsstring; fc_args_url : value }.

(** [result.response] of [generateContent]: its two accessors, each of which
    may throw. *)
Record GenerateContentResponse : Type := mkGenResponse {
  response_text : thrown + jsstring;
  response_functionCalls : thrown + option (list FunctionCall);
}.

(** What the child process delivers to the listeners before ['close']. *)
Inductive ChildEvent : Type :=
| StdoutData (data : jsstring)
| StderrData (data : jsstring)
| ErrorEvent (error : Error).

(** A run of the child process up to its ['close'] event; [code] is [null]
    when the process was ended by a signal. *)
Record ChildRun : Type := mkRun { events : list ChildEvent; close_code : option Z }.

Inductive Call : Type :=
| NewDate
| Uuidv4
| GenerateContent (tools : bool) (contents : list Content) (config : GenerationConfig)
| Fetch (path : jsstring) (body : JSON)
| Spawn (command : jsstring) (args : list jsstring).

(** The type of what each call gives back.  [generateContent] resolves or
    rejects; [Fetch] stands for the transport of [fetch] and of
    [response.json()], which delivers the request to the route ([None]) or
    rejects. *)
Definition Answer (c : Call) : Type :=
  match c with
  | NewDate => Date
  | Uuidv4 => jsstring
  | GenerateContent _ _ _ => (thrown + GenerateContentResponse)%type
  | Fetch _ _ => option thrown
  | Spawn _ _ => ChildRun
  end.

(** Programs: a result, or a call and what to do with its answer. *)
Inductive Prog (A : Type) : Type :=
| Ret (a : A)
| Do (c : Call) (k : Answer c -> Prog A).
Arguments Ret {A} a.
Arguments Do {A} c k.

Fixpoint pbind {A B} (p : Prog A) (f : A -> Prog B) : Prog B :=
  match p with
  | Ret a => f a
  | Do c k => Do c (fun x => pbind (k x) f)
  end.

(** How a JavaScript block ends. *)
Inductive Completion (A : Type) : Type :=
| Normal (a : A)
| Abrupt (e : thrown).
Arguments Normal {A} a.
Arguments Abrupt {A} e.

(** A computation over a mutable state [S] that may throw; what was written
    to the state before a [throw] stays written. *)
Definition M (S A : Type) : Type := S -> Prog (Completion A * S).

Definition ret {S A} (a : A) : M S A := fun s => Ret (Normal a, s).

Definition throw {S A} (e : thrown) : M S A := fun s => Ret (Abrupt e, s).

Definition bind {S A B} (m : M S A) (f : A -> M S B) : M S B :=
  fun s => pbind (m s) (fun r =>
    match r with
    | (Normal a, s') => f a s'
    | (Abrupt e, s') => Ret (Abrupt e, s')
    end).

(** [try { m } catch (e) { h e }] *)
Definition try_catch {S A} (m : M S A) (h : thrown -> M S A) : M S A :=
  fun s => pbind (m s) (fun r =>
    match r with
    | (Normal a, s') => Ret (Normal a, s')
    | (Abrupt e, s') => h e s'
    end).

Definition call {S} (c : Call) : M S (Answer c) :=
  fun s => Do c (fun x => Ret (Normal x, s)).

Definition get {S} : M S S := fun s => Ret (Normal s, s).

Definition put {S} (s : S) : M S unit := fun _ => Ret (Normal tt, s).

Definition modify {S} (f : S -> S) : M S unit := fun s => Ret (Normal tt, f s).

(** Awaiting something that resolves or rejects. *)
Definition await {S A} (r : thrown + A) : M S A :=
  match r with
  | inl e => throw e
  | inr a => ret a
  end.

(** A scripted outside world: the answers in the order the calls are made. *)
Inductive Reply : Type :=
| RDate (d : Date)
| RUuid (u : jsstring)
| RGenerate (r : thrown + GenerateContentResponse)
| RFetch (r : option thrown)
| RSpawn (r : ChildRun).

Definition coerce (c : Call) (r : Reply) : option (Answer c) :=
  match c return option (Answer c) with
  | NewDate => match r with RDate d => Some d | _ => None end
  | Uuidv4 => match r with RUuid u => Some u | _ => None end
  | GenerateContent _ _ _ => match r with RGenerate x => Some x | _ => None end
  | Fetch _ _ => match r with RFetch x => Some x | _ => None end
  | Spawn _ _ => match r with RSpawn x => Some x | _ => None end
  end.

(** Running a program against a script gives its result, the calls it made and
    the replies it left unused, or nothing when a reply does not fit the call
    it answers or the script ends too soon. *)
Fixpoint run {A} (p : Prog A) (script : list Reply)
    : option (A * list Call * list Reply) :=
  match p with
  | Ret a => Some (a, [], script)
  | Do c k =>
      match script with
      | [] => None
      | r :: script' =>
          match coerce c r with
          | None => None
          | Some x =>
              match run (k x) script' with
              | Some (a, calls, rest) => Some (a, c :: calls, rest)
              | None => None
              end
          end
      end
  end.

(** [runs p script a]: against [script], all of it, [p] ends with [a]. *)
Definition runs {A} (p : Prog A) (script : list Reply) (a : A) : Prop :=
  exists calls, run p script = Some (a, calls, []).

(** [always ok P p]: [P] holds of the result of [p] whatever the outside
    world answers, as long as each answer satisfies [ok]. *)
Fixpoint always {A} (ok : forall c, Answer c -> Prop) (P : A -> Prop)
    (p : Prog A) : Prop :=
  match p with
  | Ret a => P a
  | Do c k => forall x, ok c x -> always ok P (k x)
  end.

(** No constraint on the outside world. *)
Definition any_answer (c : Call) (x : Answer c) : Prop := True.

End Eff.
Import Eff.

Declare Scope prog_scope.
Delimit Scope prog_scope with prog.
Notation "'let*' x ':=' m 'in' k" := (bind m (fun x => k))
  (at level 10, x name, m at level 100, k at level 200) : prog_scope.

(** [NextResponse.json(body, { status })]; the status is 200 when none is given. *)
Record Response (B : Type) : Type := mkResponse { status : Z; body : B }.
Arguments mkResponse {B} status body.
Arguments status {B} r.
Arguments body {B} r.

Definition json {B} (b : B) : Response B := mkResponse 200 b.

Definition json_status {B} (b : B) (st : Z) : Response B := mkResponse st b.

(** The [ZodError] thrown by [Schema.parse]. *)
Definition ZodError `{RT : Runtime} (issues : list ZodIssue) : thrown :=
  ThrownError (mkError (zod_message issues)).

(* ===================================================================== *)
(** ** src/app/api/screenshot/route.ts *)
(* ===================================================================== *)

Module Screenshot.

(** The two bodies the route sends: [{ success: true, base64Data }] and
    [{ success: false, error }]. *)
Inductive Body : Type :=
| Success (base64Data : jsstring)
| Failure (error : jsstring).

Definition success (b : Body) : bool :=
  match b with Success _ => true | Failure _ => false end.

(** [z.object({ url: z.string().url({ message: 'Invalid URL provided' }) })] *)
Definition RequestSchema_parse `{RT : Runtime} (body : JSON) : thrown + jsstring :=
  match body with
  | JObject fields =>
      match prop (str "url") fields with
      | Some (JString url) =>
          if zod_url url then inr url
          else inl (ZodError [invalid_string [str "url"] (str "Invalid URL provided")])
      | _ => inl (ZodError [invalid_type [str "url"]])
      end
  | _ => inl (ZodError [invalid_type []])
  end.

(** [stdoutData], [stderrData] and [processError] of the promise body. *)
Record Collected : Type := mkCollected {
  stdoutData : jsstring;
  stderrData : jsstring;
  processError : option Error;
}.

Definition initial : Collected := mkCollected [] [] None.

(** The ['data'] listeners of [child.stdout] and [child.stderr], and the
    ['error'] listener of [child]. *)
Definition listen (st : Collected) (ev : ChildEvent) : Collected :=
  match ev with
  | StdoutData data =>
      mkCollected (stdoutData st ++ data) (stderrData st) (processError st)
  | StderrData data =>
      let errLine := trim data in
      if truthy errLine
      then mkCollected (stdoutData st) (stderrData st ++ errLine ++ [10%N]) (processError st)
      else st
  | ErrorEvent error =>
      mkCollected (stdoutData st) (stderrData st) (Some error)
  end.

(** The ['close'] listener, which resolves the promise. *)
Definition on_close (st : Collected) (code : option Z) : Response Body :=
  match processError st with
  | Some error =>
      json_status (Failure (str "Failed to start screenshot process: " ++ message error)) 500
  | None =>
      if negb (bool_decide (code = Some 0)) then
        json_status
          (Failure (str "Screenshot script failed (code " ++ show_code code
                    ++ str "). Check server logs. Output: " ++ stderrData st)) 500
      else if negb (truthy (stdoutData st)) then
        json_status (Failure (str "Screenshot script succeeded but returned no data.")) 500
      else
        json (Success (stdoutData st))
  end.

(** What the listeners have collected when ['close'] arrives. *)
Definition collect (r : ChildRun) : Collected := foldl listen initial (events r).

Section Route.
Context `{RT : Runtime} {S : Type}.
Open Scope prog_scope.

(** [export async function POST(req)]; [req_json] is the outcome of
    [await req.json()]. *)
Definition POST (req_json : thrown + JSON) : M S (Response Body) :=
  let* validatedData :=
    try_catch
      (let* body := await req_json in
       let* data := await (RequestSchema_parse body) in
       ret (inr data))
      (fun _ =>
         ret (inl (json_status (Failure (str "Invalid request body or URL.")) 400))) in
  match validatedData with
  | inl response => ret response
  | inr url =>
      let* r := call (Spawn (str "node") [script_path; url]) in
      ret (on_close (collect r) (close_code r))
  end.

End Route.

End Screenshot.

(* ===================================================================== *)
(** ** src/utils/gemini.ts: the types both revisions export *)
(* ===================================================================== *)

Module Types.

Inductive Role : Type := user | assistant | system.

(** [interface ChatMessage]; an optional property that is not set is [None]. *)
Record ChatMessage : Type := mkMessage {
  role : Role;
  content : jsstring;
  timestamp : option Date;
  isScreenshot : option bool;
  screenshotUrl : option jsstring;
  screenshotBase64 : option jsstring;
}.

(** A message object written as [{ role, content, timestamp }]. *)
Definition plain (r : Role) (c : jsstring) (t : Date) : ChatMessage :=
  mkMessage r c (Some t) None None None.

(** [interface ChatSession] *)
Record ChatSession : Type := mkSession {
  id : jsstring;
  messages : list ChatMessage;
  createdAt : Date;
  updatedAt : Date;
}.

(** [interface FunctionCallResult] *)
Record FunctionCallResult : Type := mkResult {
  text : jsstring;
  functionCall : option FunctionCall;
}.

End Types.
Import Types.

#[global] Instance Role_eq_dec : EqDecision Role.
Proof. solve_decision. Defined.

#[global] Instance ChatMessage_eq_dec : EqDecision ChatMessage.
Proof. solve_decision. Defined.

(** [new URL(s)] followed by [toString()]. *)
Definition new_URL `{RT : Runtime} (s : jsstring) : thrown + jsstring :=
  match URL_href s with
  | Some href => inr href
  | None => inl (ThrownError (mkError (str "Invalid URL")))
  end.

(** The line break of a template literal. *)
Definition nl : jsstring := [10%N].

(** The text both revisions return when the chat completion fails. *)
Definition apology : jsstring :=
  str "I'm sorry, I encountered an error while processing your message. Please try again.".

(* ===================================================================== *)
(** ** src/utils/gemini.ts, function-calling revision *)
(* ===================================================================== *)

Module GeminiTools.

Section Wrappers.
Context `{RT : Runtime} {S : Type}.
Open Scope prog_scope.

(** The entry of [contents] made of a message: [msg.role === 'assistant' ?
    'model' : 'user']. *)
Definition toGemini (msg : ChatMessage) : Content :=
  mkContent (if bool_decide (role msg = assistant) then str "model" else str "user")
            (content msg).

(** [export async function generateChatResponse(messages)] *)
Definition generateChatResponse (messages : list ChatMessage) : M S FunctionCallResult :=
  try_catch
    (let validMessages :=
       filter (fun msg => role msg = user \/ role msg = assistant) messages in
     let geminiMessages := toGemini <$> validMessages in
     let* result := call (GenerateContent true geminiMessages (mkConfig 7 800)) in
     let* response := await result in
     let* responseText := await (response_text response) in
     let* found :=
       try_catch
         (let* functionCalls := await (response_functionCalls response) in
          match functionCalls with
          | Some (functionCall :: _) =>
              ret (Some (mkResult responseText
                           (Some (mkFunctionCall (fc_name functionCall)
                                                 (fc_args_url functionCall)))))
          | _ => ret None
          end)
         (fun _ => ret None) in
     match found with
     | Some r => ret r
     | None => ret (mkResult responseText None)
     end)
    (fun _ => ret (mkResult apology None)).

End Wrappers.

End GeminiTools.

(* ===================================================================== *)
(** ** src/utils/gemini.ts, text revision *)
(* ===================================================================== *)

(** In this revision [generateChatResponse] assigns to a property of a message
    object it was handed, so the message objects live in a store of their own
    and a session holds references to them. *)
Module Heap.

Definition ref := nat.

(** A session object whose [messages] array holds references. *)
Record Session : Type := mkSession {
  id : jsstring;
  messages : list ref;
  createdAt : Date;
  updatedAt : Date;
}.

Record State : Type := mkState {
  objects : list ChatMessage;
  chatSessions : gmap jsstring Session;
}.

(** An object literal: a new object, and the reference to it. *)
Definition new_object (m : ChatMessage) : M State ref :=
  fun st => Ret (Normal (length (objects st)),
                 mkState (objects st ++ [m]) (chatSessions st)).

(** [o.content = c] *)
Definition set_content (o : ref) (c : jsstring) : M State unit :=
  modify (fun st =>
    mkState
      (match objects st !! o with
       | Some m =>
           <[o := mkMessage (role m) c (timestamp m) (isScreenshot m)
                            (screenshotUrl m) (screenshotBase64 m)]> (objects st)
       | None => objects st
       end)
      (chatSessions st)).

(** [array.filter(p)] on an array of references: the references are kept, the
    objects are read. *)
Definition filter_refs (st : State) (p : ChatMessage -> bool) (l : list ref) : list ref :=
  filter (fun o => Is_true (from_option p false (objects st !! o))) l.

(** The objects a list of references points to. *)
Definition deref (st : State) (l : list ref) : list ChatMessage :=
  omap (fun o => objects st !! o) l.

End Heap.

Module GeminiText.

Definition extract_systemPrompt : jsstring :=
  nl ++ str "      You are a helpful assistant that extracts URLs from user requests."
  ++ nl ++ str "      If the user asks to take a screenshot of a website, extract the URL."
  ++ nl ++ str "      If the URL doesn't include a protocol (http:// or https://), add https://."
  ++ nl ++ str "      If no URL is found, respond with " ++ dquote ++ str "NO_URL_FOUND" ++ dquote ++ str "."
  ++ nl ++ str "      Only return the URL, nothing else."
  ++ nl ++ str "    ".

Definition intent_systemPrompt : jsstring :=
  nl ++ str "      You are an intent detection system. Your task is to determine if the user is asking to take a screenshot of a website."
  ++ nl ++ str "      Respond with " ++ dquote ++ str "YES" ++ dquote
  ++ str " if the user is asking for a screenshot of a website, or "
  ++ dquote ++ str "NO" ++ dquote ++ str " if not."
  ++ nl ++ str "      Only respond with " ++ dquote ++ str "YES" ++ dquote ++ str " or "
  ++ dquote ++ str "NO" ++ dquote ++ str ", nothing else."
  ++ nl ++ str "    ".

(** The text put in front of the first user message. *)
Definition with_context (originalContent : jsstring) : jsstring :=
  str "Context: You are a helpful assistant that can take screenshots of websites when asked. Be conversational and friendly. If I ask about taking a screenshot, let me know you can help with that."
  ++ nl ++ nl ++ str "User message: " ++ originalContent.

Section Wrappers.
Context `{RT : Runtime}.
Open Scope prog_scope.

(** [export async function extractUrlFromPrompt(prompt)]; [None] is [null]. *)
Definition extractUrlFromPrompt {S} (prompt : jsstring) : M S (option jsstring) :=
  try_catch
    (let* result :=
       call (GenerateContent false
               [mkContent (str "user") extract_systemPrompt;
                mkContent (str "user") prompt]
               (mkConfig 1 100)) in
     let* response := await result in
     let* raw := await (response_text response) in
     let text := trim raw in
     if bool_decide (text = str "NO_URL_FOUND") then ret None
     else
       try_catch
         (let* url := await (new_URL text) in
          ret (Some url))
         (fun _ =>
            if negb (startsWith text (str "http://"))
               && negb (startsWith text (str "https://"))
            then
              try_catch
                (let* urlWithProtocol := await (new_URL (str "https://" ++ text)) in
                 ret (Some urlWithProtocol))
                (fun _ => ret None)
            else ret None))
    (fun _ => ret None).

(** [export async function detectScreenshotIntent(message)] *)
Definition detectScreenshotIntent {S} (message : jsstring) : M S bool :=
  try_catch
    (let* result :=
       call (GenerateContent false
               [mkContent (str "user") intent_systemPrompt;
                mkContent (str "user") message]
               (mkConfig 1 10)) in
     let* response := await result in
     let* raw := await (response_text response) in
     let text := toUpperCase (trim raw) in
     ret (bool_decide (text = str "YES")))
    (fun _ => ret false).

(** [function convertMessagesToGeminiFormat(messages)] *)
Definition convertMessagesToGeminiFormat (messages : list ChatMessage) : list Content :=
  (fun message =>
     mkContent (match role message with
                | assistant => str "model"
                | user => str "user"
                | system => str "system"
                end)
               (content message))
  <$> filter (fun message => role message <> system) messages.

(** [export async function generateChatResponse(messages)]; [messages] is the
    array of the session, an array of references. *)
Definition generateChatResponse (messages : list Heap.ref) : M Heap.State jsstring :=
  try_catch
    (let* st := get in
     let validMessages :=
       Heap.filter_refs st
         (fun msg => bool_decide (role msg = user \/ role msg = assistant)) messages in
     let* _ := (match validMessages with
         | [first] =>
             match Heap.objects st !! first with
             | Some m =>
                 if bool_decide (role m = user)
                 then Heap.set_content first (with_context (content m))
                 else ret tt
             | None => ret tt
             end
         | _ => ret tt
         end) in
     let* st' := get in
     let geminiMessages := convertMessagesToGeminiFormat (Heap.deref st' validMessages) in
     let* result := call (GenerateContent false geminiMessages (mkConfig 7 800)) in
     let* response := await result in
     await (response_text response))
    (fun _ => ret apology).

End Wrappers.

End GeminiText.

(* ===================================================================== *)
(** ** src/app/api/chat/route.ts: what both revisions share *)
(* ===================================================================== *)

Module ChatCommon.

(** The bodies the chat route sends: a turn, a history, or
    [{ success: false, error }]. *)
Inductive Body : Type :=
| Turn (sessionId : jsstring) (response : ChatMessage) (extractedUrl : value)
       (isScreenshotIntent : bool)
| History (sessionId : jsstring) (messages : list ChatMessage)
          (createdAt updatedAt : Date)
| Failure (error : jsstring).

Definition success (b : Body) : bool :=
  match b with Failure _ => false | _ => true end.

(** [z.object({ sessionId: z.union([z.string(), z.null(), z.undefined()]),
                message: z.string().min(1, { message: 'Message is required' }) })];
    the result is [(message, sessionId)]. *)
Definition MessageSchema_parse `{RT : Runtime} (body : JSON) : thrown + (jsstring * value) :=
  match body with
  | JObject fields =>
      let sessionId :=
        match prop (str "sessionId") fields with
        | None => inr Undefined
        | Some JNull => inr Null
        | Some (JString s) => inr (Str s)
        | Some _ => inl [invalid_union [str "sessionId"]]
        end in
      let message :=
        match prop (str "message") fields with
        | Some (JString m) =>
            if truthy m then inr m
            else inl [too_small [str "message"] (str "Message is required")]
        | _ => inl [invalid_type [str "message"]]
        end in
      match sessionId, message with
      | inr sessionId, inr message => inr (message, sessionId)
      | inl issues, inr _ => inl (ZodError issues)
      | inr _, inl issues => inl (ZodError issues)
      | inl issues1, inl issues2 => inl (ZodError (issues1 ++ issues2))
      end
  | _ => inl (ZodError [invalid_type []])
  end.

(** [sessionId && typeof sessionId === 'string']: the string, when there is one
    and it is not empty. *)
Definition usable (sessionId : value) : option jsstring :=
  match sessionId with
  | Str s => if truthy s then Some s else None
  | _ => None
  end.

(** [`${v}`] *)
Definition template (v : value) : jsstring :=
  match v with
  | Str s => s
  | Null => str "null"
  | Undefined => str "undefined"
  end.

(** [JSON.stringify({ url: v })], parsed again by the receiving route. *)
Definition url_body (v : value) : JSON :=
  JObject (match v with
           | Str s => [(str "url", JString s)]
           | Null => [(str "url", JNull)]
           | Undefined => []
           end).

(** [fetch(new URL('/api/screenshot', req.url), { method: 'POST', ... })]
    followed by [screenshotResponse.json()]: the request reaches the screenshot
    route of this application, or the transport fails. *)
Definition fetch_screenshot `{RT : Runtime} {S} (sent : JSON) : M S Screenshot.Body :=
  (let* transport := call (Fetch (str "/api/screenshot") sent) in
   match transport with
   | Some e => throw e
   | None =>
       let* screenshotResponse := Screenshot.POST (inr sent) in
       ret (body screenshotResponse)
   end)%prog.

Definition no_url_reply : jsstring :=
  str "I'd like to take a screenshot, but I couldn't process the URL. Could you please provide a valid URL?".

Definition no_url_reply_two_call : jsstring :=
  str "I'd be happy to take a screenshot for you, but I couldn't identify a specific website URL in your request. Could you please provide the URL of the website you'd like me to capture?".

Definition failed_reply (extractedUrl error : jsstring) : jsstring :=
  str "I tried to take a screenshot of " ++ extractedUrl
  ++ str ", but encountered an error: " ++ error.

Definition threw_reply (errorMessage : jsstring) : jsstring :=
  str "I tried to take a screenshot, but encountered an error: " ++ errorMessage.

Definition taken_reply (extractedUrl : jsstring) : jsstring :=
  str "I've taken a screenshot of " ++ extractedUrl ++ str " for you.".

Definition default_error : jsstring :=
  str "An error occurred while processing your message.".

End ChatCommon.
Import ChatCommon.

(* ===================================================================== *)
(** ** src/app/api/chat/route.ts, function-calling revision *)
(* ===================================================================== *)

(** [generateChatResponse] of this revision only reads the messages it is
    given, so a session holds its messages by value.  The session object a
    handler works on is the one the [Map] holds under [key]; each assignment
    to it is written to the [Map] entry. *)
Module Chat.

Definition push (session : ChatSession) (m : ChatMessage) : ChatSession :=
  mkSession (id session) (messages session ++ [m]) (createdAt session) (updatedAt session).

Definition touch (session : ChatSession) (now : Date) : ChatSession :=
  mkSession (id session) (messages session) (createdAt session) now.

Section Route.
Context `{RT : Runtime}.
Open Scope prog_scope.

Definition save (key : jsstring) (session : ChatSession) : M (gmap jsstring ChatSession) unit :=
  modify (fun chatSessions => <[key := session]> chatSessions).

(** [response.functionCall?.name === 'take_screenshot'] *)
Definition wants_screenshot (response : FunctionCallResult) : bool :=
  match functionCall response with
  | Some fc => bool_decide (fc_name fc = str "take_screenshot")
  | None => false
  end.

(** [... ? response.functionCall.args.url : null] *)
Definition url_argument (response : FunctionCallResult) : value :=
  match functionCall response with
  | Some fc => if bool_decide (fc_name fc = str "take_screenshot") then fc_args_url fc else Null
  | None => Null
  end.

(** The message the turn answers with. *)
Definition compose (response : FunctionCallResult) (extractedUrl : value)
    (isScreenshotIntent : bool) : M (gmap jsstring ChatSession) ChatMessage :=
  if isScreenshotIntent && truthy_value extractedUrl then
    try_catch
      (let* screenshotResult := fetch_screenshot (url_body extractedUrl) in
       match screenshotResult with
       | Screenshot.Success base64Data =>
           let finalScreenshotData := base64Data in
           let* now := call NewDate in
           ret (mkMessage assistant (text response) (Some now) (Some true)
                          (usable extractedUrl) (Some finalScreenshotData))
       | Screenshot.Failure error =>
           let* now := call NewDate in
           ret (plain assistant (failed_reply (template extractedUrl) error) now)
       end)
      (fun error =>
         let errorMessage :=
           match error with
           | ThrownError e => message e
           | ThrownOther => str "Unknown error"
           end in
         let* now := call NewDate in
         ret (plain assistant (threw_reply errorMessage) now))
  else if isScreenshotIntent then
    let* now := call NewDate in
    ret (plain assistant no_url_reply now)
  else
    let* now := call NewDate in
    ret (plain assistant (text response) now).

(** [export async function POST(req)]; [req_json] is the outcome of
    [await req.json()]. *)
Definition POST (req_json : thrown + JSON)
    : M (gmap jsstring ChatSession) (Response Body) :=
  try_catch
    (let* body := await req_json in
     let* validatedData := await (MessageSchema_parse body) in
     let message := fst validatedData in
     let sessionId := snd validatedData in
     let* chatSessions := get in
     let* resolved :=
       match usable sessionId ≫= (fun s => (fun e => (s, e)) <$> chatSessions !! s) with
       | Some (key, existingSession) =>
           let* now := call NewDate in
           let existingSession := touch existingSession now in
           let* _ := save key existingSession in
           ret (key, existingSession)
       | None =>
           let* newSessionId := call Uuidv4 in
           let* created := call NewDate in
           let* updated := call NewDate in
           let newSession := mkSession newSessionId [] created updated in
           let* _ := save newSessionId newSession in
           ret (newSessionId, newSession)
       end in
     let key := fst resolved in
     let session := snd resolved in
     let* now := call NewDate in
     let userMessage := plain user message now in
     let session := push session userMessage in
     let* _ := save key session in
     let* response := GeminiTools.generateChatResponse (messages session) in
     let extractedUrl := url_argument response in
     let isScreenshotIntent := wants_screenshot response in
     let* assistantMessage := compose response extractedUrl isScreenshotIntent in
     let session := push session assistantMessage in
     let* _ := save key session in
     ret (json (Turn (id session) assistantMessage extractedUrl isScreenshotIntent)))
    (fun error =>
       let errorMessage :=
         match error with
         | ThrownError e => message e
         | ThrownOther => default_error
         end in
       ret (json_status (Failure errorMessage) 500)).

(** [export async function GET(req)]; [sessionId] is the outcome of
    [url.searchParams.get('sessionId')], [None] for [null]. *)
Definition GET (sessionId : option jsstring)
    : M (gmap jsstring ChatSession) (Response Body) :=
  match sessionId ≫= (fun s => if truthy s then Some s else None) with
  | None => ret (json_status (Failure (str "Session ID is required")) 400)
  | Some sessionId =>
      let* chatSessions := get in
      match chatSessions !! sessionId with
      | None => ret (json_status (Failure (str "Session not found")) 404)
      | Some session =>
          ret (json (History (id session) (messages session)
                             (createdAt session) (updatedAt session)))
      end
  end.

End Route.

End Chat.

(* ===================================================================== *)
(** ** src/app/api/chat/route.ts, two-call revision *)
(* ===================================================================== *)

Module ChatTwoCall.

Definition push (session : Heap.Session) (o : Heap.ref) : Heap.Session :=
  Heap.mkSession (Heap.id session) (Heap.messages session ++ [o])
                 (Heap.createdAt session) (Heap.updatedAt session).

Definition touch (session : Heap.Session) (now : Date) : Heap.Session :=
  Heap.mkSession (Heap.id session) (Heap.messages session) (Heap.createdAt session) now.

(** [string | null] as a slot of the response. *)
Definition nullable (o : option jsstring) : value :=
  match o with
  | Some s => Str s
  | None => Null
  end.

Section Route.
Context `{RT : Runtime}.
Open Scope prog_scope.

Definition save (key : jsstring) (session : Heap.Session) : M Heap.State unit :=
  modify (fun st =>
    Heap.mkState (Heap.objects st) (<[key := session]> (Heap.chatSessions st))).

(** The branch [if (isScreenshotIntent) { ... }]: the message and
    [extractedUrl]. *)
Definition screenshot_branch (message : jsstring)
    : M Heap.State (ChatMessage * option jsstring) :=
  let* extractedUrl := GeminiText.extractUrlFromPrompt message in
  match extractedUrl ≫= (fun s => if truthy s then Some s else None) with
  | Some url =>
      let* assistantMessage :=
        try_catch
          (let* screenshotResult := fetch_screenshot (url_body (Str url)) in
           match screenshotResult with
           | Screenshot.Success base64Data =>
               let screenshotData := base64Data in
               let* now := call NewDate in
               ret (mkMessage assistant (taken_reply url) (Some now) (Some true)
                              (Some url) (Some screenshotData))
           | Screenshot.Failure error =>
               let* now := call NewDate in
               ret (plain assistant (failed_reply url error) now)
           end)
          (fun error =>
             let errorMessage :=
               match error with
               | ThrownError e =>
                   if truthy (JS.message e) then JS.message e else str "Unknown error"
               | ThrownOther => str "Unknown error"
               end in
             let* now := call NewDate in
             ret (plain assistant (threw_reply errorMessage) now)) in
      ret (assistantMessage, extractedUrl)
  | None =>
      let* now := call NewDate in
      ret (plain assistant no_url_reply_two_call now, extractedUrl)
  end.

(** [export async function POST(req)] *)
Definition POST (req_json : thrown + JSON) : M Heap.State (Response Body) :=
  try_catch
    (let* body := await req_json in
     let* validatedData := await (MessageSchema_parse body) in
     let message := fst validatedData in
     let sessionId := snd validatedData in
     let* st := get in
     let* resolved :=
       match usable sessionId
             ≫= (fun s => (fun e => (s, e)) <$> Heap.chatSessions st !! s) with
       | Some (key, existingSession) =>
           let* now := call NewDate in
           let session := touch existingSession now in
           let* _ := save key session in
           ret (key, session)
       | None =>
           let* newSessionId := call Uuidv4 in
           let* created := call NewDate in
           let* updated := call NewDate in
           let session := Heap.mkSession newSessionId [] created updated in
           let* _ := save newSessionId session in
           ret (newSessionId, session)
       end in
     let key := fst resolved in
     let session := snd resolved in
     let* now := call NewDate in
     let* userMessage := Heap.new_object (plain user message now) in
     let session := push session userMessage in
     let* _ := save key session in
     let* isScreenshotIntent := GeminiText.detectScreenshotIntent message in
     let* composed :=
       if isScreenshotIntent then screenshot_branch message
       else
         let* responseText := GeminiText.generateChatResponse (Heap.messages session) in
         let* now := call NewDate in
         ret (plain assistant responseText now, None) in
     let* assistantMessage := Heap.new_object (fst composed) in
     let extractedUrl := snd composed in
     let session := push session assistantMessage in
     let* _ := save key session in
     ret (json (Turn (Heap.id session) (fst composed) (nullable extractedUrl)
                     isScreenshotIntent)))
    (fun error =>
       let errorMessage :=
         match error with
         | ThrownError e => if truthy (message e) then message e else default_error
         | ThrownOther => default_error
         end in
       ret (json_status (Failure errorMessage) 500)).

End Route.

End ChatTwoCall.

(* ===================================================================== *)
(** ** A runtime to evaluate the handlers with *)
(* ===================================================================== *)

(** A stand-in for the library functions, used where a handler is evaluated on
    a concrete request: a string is taken for a URL when it starts with
    [http://] or [https://] and holds no space, upper-casing maps [a-z] to
    [A-Z], and a [ZodError] carries the messages of its issues. *)
Module Demo.

Definition looks_like_url (s : jsstring) : bool :=
  (startsWith s (str "http://") || startsWith s (str "https://"))
  && bool_decide (Forall (fun c => is_space c = false) s).

Definition upper (c : N) : N :=
  if ((97 <=? c) && (c <=? 122))%N then (c - 32)%N else c.

Definition issue_text (i : ZodIssue) : jsstring :=
  match i with
  | invalid_type _ => str "Invalid input"
  | invalid_union _ => str "Invalid input"
  | invalid_string _ msg => msg
  | too_small _ msg => msg
  end.

#[export] Instance runtime : Runtime := {|
  URL_href := fun s => if looks_like_url s then Some s else None;
  zod_url := looks_like_url;
  toUpperCase := fun s => upper <$> s;
  zod_message := fun issues => concat (issue_text <$> issues);
  script_path := str "/app/scripts/take-screenshot.mjs";
|}.

End Demo.

(* ===================================================================== *)
(** ** Notions the properties are stated with *)
(* ===================================================================== *)

Module Notions.

(** Everything the child wrote to its standard output, in order. *)
Definition stdout_of (r : ChildRun) : jsstring :=
  concat (omap (fun ev => match ev with StdoutData d => Some d | _ => None end)
               (events r)).

(** The diagnostic text kept from the standard error of the child: each chunk
    trimmed, the empty ones dropped, one per line. *)
Definition stderr_of (r : ChildRun) : jsstring :=
  concat (omap (fun ev =>
                  match ev with
                  | StderrData d => if truthy (trim d) then Some (trim d ++ [10%N]) else None
                  | _ => None
                  end)
               (events r)).

(** The error the child reported through its ['error'] event, if any (the
    last one, should there be several). *)
Definition spawn_error (r : ChildRun) : option Error :=
  last (omap (fun ev => match ev with ErrorEvent e => Some e | _ => None end)
             (events r)).

(** The response the screenshot route resolves with for a run of the child. *)
Definition respond (r : ChildRun) : Response Screenshot.Body :=
  Screenshot.on_close (Screenshot.collect r) (close_code r).

Definition spawn_failure_text (e : Error) : jsstring :=
  str "Failed to start screenshot process: " ++ message e.

Definition exit_failure_text (code : option Z) (stderr : jsstring) : jsstring :=
  str "Screenshot script failed (code " ++ show_code code
  ++ str "). Check server logs. Output: " ++ stderr.

Definition empty_output_text : jsstring :=
  str "Screenshot script succeeded but returned no data.".

(** The result of a program that makes no call. *)
Definition result_of {A} (p : Prog A) : option A :=
  match p with
  | Ret a => Some a
  | Do _ _ => None
  end.

(** A computation ended normally, with a result and a state that satisfy [P]. *)
Definition normally {S A} (P : A -> S -> Prop) (rs : Completion A * S) : Prop :=
  match rs with
  | (Normal a, s) => P a s
  | (Abrupt _, _) => False
  end.



(** Every session is stored under its own id. *)
Definition keyed_by_id (store : gmap jsstring ChatSession) : Prop :=
  forall key session, store !! key = Some session -> id session = key.

(** A message carries the screenshot flag, a source URL and a payload, none of
    them empty, or none of the three. *)
Definition paired (m : ChatMessage) : Prop :=
  (isScreenshot m = None /\ screenshotUrl m = None /\ screenshotBase64 m = None)
  \/ (isScreenshot m = Some true
      /\ (exists url, screenshotUrl m = Some url /\ url <> [])
      /\ (exists data, screenshotBase64 m = Some data /\ data <> [])).


(** What one [POST] to the chat route can end with: the request was rejected
    and the store is as before, or a session was resolved (an existing one,
    touched, or a new one under the id [uuidv4] gave) and the user message and
    the assistant message were appended to it. *)
Definition turn_outcome `{RT : Runtime} (ok : forall c, Answer c -> Prop)
    (store : gmap jsstring ChatSession) (req_json : thrown + JSON)
    (rs : Completion (Response Body) * gmap jsstring ChatSession) : Prop :=
  (exists e,
      rs = (Normal (json_status (Failure e) 500), store)
      /\ forall payload parsed, req_json = inr payload ->
                                MessageSchema_parse payload <> inr parsed)
  \/ (exists payload message sessionId key base now a,
        req_json = inr payload
        /\ MessageSchema_parse payload = inr (message, sessionId)
        /\ ((exists old t,
               usable sessionId = Some key /\ store !! key = Some old
               /\ base = Chat.touch old t)
            \/ (exists created updated,
                  (usable sessionId ≫= (fun s => store !! s)) = None
                  /\ ok Uuidv4 key
                  /\ base = mkSession key [] created updated))
        /\ role a = assistant /\ paired a
        /\ exists u i,
             rs = (Normal (json (Turn (id base) a u i)),
                   <[key := Chat.push (Chat.push base (plain user message now)) a]> store)).

(** The request body with [sessionId: null] and the empty string for
    [message]. *)
Definition empty_message_request : thrown + JSON :=
  inr (JObject [(str "sessionId", JNull); (str "message", JString [])]).

(** The Gemini call fails: [generateContent] rejects, or [response.text()]
    throws. *)
Definition llm_fails (c : Call) : Answer c -> Prop :=
  match c with
  | GenerateContent _ _ _ => fun x =>
      match x with
      | inl _ => True
      | inr response =>
          match response_text response with
          | inl _ => True
          | inr _ => False
          end
      end
  | _ => fun _ => True
  end.

(** The reply that stands for "no URL". *)
Definition sentinel : jsstring := str "NO_URL_FOUND".

(** The text starts with one of the two schemes the wrapper looks for. *)
Definition has_scheme (text : jsstring) : bool :=
  startsWith text (str "http://") || startsWith text (str "https://").

(** The computation returned to its caller: it did not throw. *)
Definition returns {S A} (rs : Completion A * S) : Prop :=
  match rs with
  | (Normal _, _) => True
  | (Abrupt _, _) => False
  end.

(** The request body [{ sessionId: null, message: "hello" }]. *)
Definition hello_request : thrown + JSON :=
  inr (JObject [(str "sessionId", JNull); (str "message", JString (str "hello"))]).

(** Gemini answers with the text [t] and no function call. *)
Definition text_reply (t : jsstring) : Reply :=
  RGenerate (inr (mkGenResponse (inr t) (inr None))).

(** A first turn: the id and the three dates of the new session and of the
    user message, the reply NO to the intent detection, the reply to the chat
    completion, and the date of the assistant message. *)
Definition hello_script : list Reply :=
  [RUuid (str "u1"); RDate 1; RDate 2; RDate 3;
   text_reply (str "NO"); text_reply (str "Hi!"); RDate 4].

(** The messages of the session stored under [key], as the store has them. *)
Definition stored_messages (st : Heap.State) (key : jsstring) : list ChatMessage :=
  match Heap.chatSessions st !! key with
  | Some session => Heap.deref st (Heap.messages session)
  | None => []
  end.

(** Gemini answers with the text [said] and a call of [take_screenshot] whose
    [url] argument is [url]. *)
Definition call_reply (said : jsstring) (url : value) : Reply :=
  RGenerate (inr (mkGenResponse (inr said)
                    (inr (Some [mkFunctionCall (str "take_screenshot") url])))).

(** What the outside world decides in a turn, in terms both revisions share:
    the model chats; the model wants a screenshot but names no URL; or it
    wants one of [url], and then the transport of [fetch] and the run of the
    child decide the rest.  [said] is the text of the model. *)
Inductive Outcome : Type :=
| Chatted (said : jsstring)
| NoUrl (said : jsstring)
| Shot (said : jsstring) (url : jsstring) (transport : option thrown) (r : ChildRun).

(** The reply to the spawn, which the screenshot route asks for only when the
    request reached it and the URL passed its schema. *)
Definition spawned `{RT : Runtime} (url : jsstring) (transport : option thrown)
    (r : ChildRun) : list Reply :=
  match transport with
  | None => if zod_url url then [RSpawn r] else []
  | Some _ => []
  end.

(** The replies both revisions use up before they turn to Gemini: the date
    [updatedAt] of a reused session, or the id and the two dates of a new one,
    and the date of the user message. *)
Definition opening (reused : bool) (u : jsstring) (t1 t2 t3 : Date) : list Reply :=
  (if reused then [RDate t1] else [RUuid u; RDate t1; RDate t2]) ++ [RDate t3].

(** The outcome [o] as the function-calling revision meets it. *)
Definition tools_answers `{RT : Runtime} (o : Outcome) (t4 : Date) : list Reply :=
  match o with
  | Chatted said => [text_reply said; RDate t4]
  | NoUrl said => [call_reply said Null; RDate t4]
  | Shot said url transport r =>
      [call_reply said (Str url); RFetch transport] ++ spawned url transport r ++ [RDate t4]
  end.




(** What the chat route receives from the screenshot route for [url]. *)
Definition fetched `{RT : Runtime} (url : jsstring) (transport : option thrown)
    (r : ChildRun) : Completion Screenshot.Body :=
  match transport with
  | Some e => Abrupt e
  | None =>
      if zod_url url then Normal (body (respond r))
      else Normal (Screenshot.Failure (str "Invalid request body or URL."))
  end.

(** The state after [generateChatResponse] of the text revision looked at the
    messages [history] refers to: when exactly one of them is a user or
    assistant message and it is a user message, its content now starts with
    the context. *)
Definition primed (history : list Heap.ref) (st : Heap.State) : Heap.State :=
  match Heap.filter_refs st
          (fun msg => bool_decide (role msg = user \/ role msg = assistant)) history with
  | [first] =>
      match Heap.objects st !! first with
      | Some m =>
          if bool_decide (role m = user)
          then Heap.mkState
                 (<[first := mkMessage (role m) (GeminiText.with_context (content m))
                                       (timestamp m) (isScreenshot m)
                                       (screenshotUrl m) (screenshotBase64 m)]>
                    (Heap.objects st))
                 (Heap.chatSessions st)
          else st
      | None => st
      end
  | _ => st
  end.









(** A store with one session, one message in it. *)
Definition one_session : ChatSession :=
  mkSession (str "s1") [plain user (str "hello") 1] 1 2.

Definition one_session_store : gmap jsstring ChatSession :=
  {[ str "s1" := one_session ]}.

End Notions.
Import Notions.

(* ===================================================================== *)
(** ** src/app/api/ai-screenshot/route.ts *)
(* ===================================================================== *)

Module AiScreenshot.

(** The two bodies the route sends: [{ success: true, base64Data,
    extractedUrl }] and [{ success: false, error }]. *)
Inductive Body : Type :=
| Success (base64Data : jsstring) (extractedUrl : jsstring)
| Failure (error : jsstring).

Definition success (b : Body) : bool :=
  match b with Success _ _ => true | Failure _ => false end.

(** [z.object({ prompt: z.string().min(1, { message: 'Prompt is required' }) })] *)
Definition RequestSchema_parse `{RT : Runtime} (body : JSON) : thrown + jsstring :=
  match body with
  | JObject fields =>
      match prop (str "prompt") fields with
      | Some (JString prompt) =>
          if truthy prompt then inr prompt
          else inl (ZodError [too_small [str "prompt"] (str "Prompt is required")])
      | _ => inl (ZodError [invalid_type [str "prompt"]])
      end
  | _ => inl (ZodError [invalid_type []])
  end.

(** [response.ok]: the status is in the range 200-299. *)
Definition ok {B} (response : Response B) : bool :=
  (200 <=? status response) && (status response <=? 299).

Definition invalid_body : jsstring := str "Invalid request body.".

Definition no_url : jsstring :=
  str "Could not extract a valid URL from your request. Please try again with a clearer URL.".

Definition fetch_failed : jsstring := str "Failed to fetch screenshot.".

Definition default_error : jsstring :=
  str "An error occurred while processing your request.".

Section Route.
Context `{RT : Runtime} {S : Type}.
Open Scope prog_scope.

(** [fetch(new URL('/api/screenshot', req.url), { method: 'POST', ... })]: the
    request reaches the screenshot route of this application, which answers
    it, or the transport fails. *)
Definition fetch_screenshot_response (sent : JSON) : M S (Response Screenshot.Body) :=
  let* transport := call (Fetch (str "/api/screenshot") sent) in
  match transport with
  | Some e => throw e
  | None => Screenshot.POST (inr sent)
  end.

(** [export async function POST(req)]; [req_json] is the outcome of
    [await req.json()]. *)
Definition POST (req_json : thrown + JSON) : M S (Response Body) :=
  let* validatedData :=
    try_catch
      (let* body := await req_json in
       let* data := await (RequestSchema_parse body) in
       ret (inr data))
      (fun _ => ret (inl (json_status (Failure invalid_body) 400))) in
  match validatedData with
  | inl response => ret response
  | inr prompt =>
      try_catch
        (let* extracted := GeminiText.extractUrlFromPrompt prompt in
         match extracted ≫= (fun s => if truthy s then Some s else None) with
         | None => ret (json_status (Failure no_url) 400)
         | Some url =>
             let* screenshotResponse := fetch_screenshot_response (url_body (Str url)) in
             let screenshotResult := body screenshotResponse in
             match screenshotResult with
             | Screenshot.Success base64Data =>
                 if ok screenshotResponse then ret (json (Success base64Data url))
                 else throw (ThrownError (mkError fetch_failed))
             | Screenshot.Failure error =>
                 throw (ThrownError (mkError (if truthy error then error else fetch_failed)))
             end
         end)
        (fun error =>
           let errorMessage :=
             match error with
             | ThrownError e => if truthy (message e) then message e else default_error
             | ThrownOther => default_error
             end in
           ret (json_status (Failure errorMessage) 500))
  end.

End Route.

End AiScreenshot.

(* ===================================================================== *)
(** ** src/app/api/screenshot/route.ts, the revision that throws its 400 *)
(* ===================================================================== *)

Module ScreenshotThrowing.

(** How the promise [POST] returns settles: [POST] returns a response, or it
    throws one. *)
Inductive Settled : Type :=
| Resolved (response : Response Screenshot.Body)
| Rejected (reason : Response Screenshot.Body).

Section Route.
Context `{RT : Runtime} {S : Type}.
Open Scope prog_scope.

(** [export async function POST(req)].  The function expression that
    validates the request throws the 400 response it builds, and [POST] awaits
    it outside of any [try]; what it returns is never a [NextResponse], so the
    test [validatedData instanceof NextResponse] is false.  The listeners are
    those of the other revision, on the properties of [state]. *)
Definition POST (req_json : thrown + JSON) : M S Settled :=
  let* validatedData :=
    try_catch
      (let* body := await req_json in
       let* data := await (Screenshot.RequestSchema_parse body) in
       ret (inr data))
      (fun error =>
         let errorMessage :=
           match error with
           | ThrownError e => message e
           | ThrownOther => str "Invalid request body or URL."
           end in
         ret (inl (json_status (Screenshot.Failure errorMessage) 400))) in
  match validatedData with
  | inl thrown_response => ret (Rejected thrown_response)
  | inr url =>
      let* r := call (Spawn (str "node") [script_path; url]) in
      ret (Resolved (Screenshot.on_close (Screenshot.collect r) (close_code r)))
  end.

End Route.

End ScreenshotThrowing.

(* ===================================================================== *)
(** ** src/app/api/chat/route.ts, function-calling revision with [let] *)
(* ===================================================================== *)

(** The revision of the function-calling route that assigns to [let]
    variables.  It builds the session and the messages as [Chat] does, and
    differs in its two [catch] clauses, which read [error.message] of
    whatever was thrown and fall back on a default when it is empty or
    missing. *)
Module ChatLet.

Section Route.
Context `{RT : Runtime}.
Open Scope prog_scope.

(** The message the turn answers with. *)
Definition compose (response : FunctionCallResult) (extractedUrl : value)
    (isScreenshotIntent : bool) : M (gmap jsstring ChatSession) ChatMessage :=
  if isScreenshotIntent then
    match usable extractedUrl with
    | Some url =>
        try_catch
          (let* screenshotResult := fetch_screenshot (url_body extractedUrl) in
           match screenshotResult with
           | Screenshot.Success base64Data =>
               let screenshotData := base64Data in
               let* now := call NewDate in
               ret (mkMessage assistant (text response) (Some now) (Some true)
                              (Some url) (Some screenshotData))
           | Screenshot.Failure error =>
               let* now := call NewDate in
               ret (plain assistant (failed_reply url error) now)
           end)
          (fun error =>
             let errorMessage :=
               match error with
               | ThrownError e =>
                   if truthy (message e) then message e else str "Unknown error"
               | ThrownOther => str "Unknown error"
               end in
             let* now := call NewDate in
             ret (plain assistant (threw_reply errorMessage) now))
    | None =>
        let* now := call NewDate in
        ret (plain assistant no_url_reply now)
    end
  else
    let* now := call NewDate in
    ret (plain assistant (text response) now).

(** [export async function POST(req)] *)
Definition POST (req_json : thrown + JSON)
    : M (gmap jsstring ChatSession) (Response Body) :=
  try_catch
    (let* body := await req_json in
     let* validatedData := await (MessageSchema_parse body) in
     let message := fst validatedData in
     let sessionId := snd validatedData in
     let* chatSessions := get in
     let* resolved :=
       match usable sessionId ≫= (fun s => (fun e => (s, e)) <$> chatSessions !! s) with
       | Some (key, session) =>
           let* now := call NewDate in
           let session := Chat.touch session now in
           let* _ := Chat.save key session in
           ret (key, session)
       | None =>
           let* newSessionId := call Uuidv4 in
           let* created := call NewDate in
           let* updated := call NewDate in
           let session := mkSession newSessionId [] created updated in
           let* _ := Chat.save newSessionId session in
           ret (newSessionId, session)
       end in
     let key := fst resolved in
     let session := snd resolved in
     let* now := call NewDate in
     let userMessage := plain user message now in
     let session := Chat.push session userMessage in
     let* _ := Chat.save key session in
     let* response := GeminiTools.generateChatResponse (messages session) in
     let isScreenshotIntent := Chat.wants_screenshot response in
     let extractedUrl := Chat.url_argument response in
     let* assistantMessage := compose response extractedUrl isScreenshotIntent in
     let session := Chat.push session assistantMessage in
     let* _ := Chat.save key session in
     ret (json (Turn (id session) assistantMessage extractedUrl isScreenshotIntent)))
    (fun error =>
       let errorMessage :=
         match error with
         | ThrownError e => if truthy (message e) then message e else default_error
         | ThrownOther => default_error
         end in
       ret (json_status (Failure errorMessage) 500)).

End Route.

End ChatLet.

(* ===================================================================== *)
(** ** scripts/take-screenshot.mjs: what both revisions share *)
(* ===================================================================== *)

(** The helper script runs in a process of its own.  What it does to the
    outside (the requests to the MCP client, the writes to its two output
    streams) is recorded in order; what the MCP client answers is given by a
    [World].  [process.exit] ends the process at once: no [catch] and no
    [finally] runs after it. *)
Module Process.

(** One entry of [result.content].  [data] is the property of an image entry,
    a string; an entry without it has [None]. *)
Record ContentItem : Type := mkItem { item_type : jsstring; item_data : option jsstring }.

(** What [client.callTool] resolves with; [content] may be missing. *)
Record ToolResult : Type := mkToolResult { result_content : option (list ContentItem) }.

(** What the MCP client answers. *)
Record World : Type := mkWorld {
  (** [client.connect(transport)]: resolves, or rejects *)
  world_connect : option thrown;
  (** [client.callTool({ name, arguments })] *)
  world_callTool : jsstring -> JSON -> thrown + ToolResult;
  (** [client.state], when it is read *)
  world_state : value;
  (** [client.disconnect()]: resolves, or throws *)
  world_disconnect : option thrown;
}.

Inductive Event : Type :=
| Connect
| CallTool (name : jsstring) (arguments : JSON)
| Disconnect
| Stdout (data : jsstring)
| Stderr (data : jsstring).

(** How a block of the script ends: with a value, by throwing, or because
    [process.exit(code)] was called. *)
Inductive Ending (A : Type) : Type :=
| Value (a : A)
| Throws (e : thrown)
| Exits (code : Z).
Arguments Value {A} a.
Arguments Throws {A} e.
Arguments Exits {A} code.

Definition Proc (A : Type) : Type := World -> list Event * Ending A.

Definition ret {A} (a : A) : Proc A := fun _ => ([], Value a).

Definition throw {A} (e : thrown) : Proc A := fun _ => ([], Throws e).

(** [process.exit(code)] *)
Definition exit {A} (code : Z) : Proc A := fun _ => ([], Exits code).

Definition bind {A B} (m : Proc A) (f : A -> Proc B) : Proc B :=
  fun w =>
    match m w with
    | (t1, Value a) => let (t2, r) := f a w in (t1 ++ t2, r)
    | (t1, Throws e) => (t1, Throws e)
    | (t1, Exits code) => (t1, Exits code)
    end.

(** [try { m } catch (e) { h e }] *)
Definition try_catch {A} (m : Proc A) (h : thrown -> Proc A) : Proc A :=
  fun w =>
    match m w with
    | (t1, Throws e) => let (t2, r) := h e w in (t1 ++ t2, r)
    | r => r
    end.

(** [try { m } finally { f }]: [f] runs when [m] returned or threw, and what
    [f] throws replaces the outcome of [m]. *)
Definition try_finally {A} (m : Proc A) (f : Proc unit) : Proc A :=
  fun w =>
    match m w with
    | (t1, Exits code) => (t1, Exits code)
    | (t1, r) =>
        match f w with
        | (t2, Value _) => (t1 ++ t2, r)
        | (t2, Throws e) => (t1 ++ t2, Throws e)
        | (t2, Exits code) => (t1 ++ t2, Exits code)
        end
    end.

Definition emit (ev : Event) : Proc unit := fun _ => ([ev], Value tt).

Definition await {A} (r : thrown + A) : Proc A :=
  match r with
  | inl e => throw e
  | inr a => ret a
  end.

(** [await client.connect(transport)] *)
Definition connect : Proc unit :=
  fun w => ([Connect], match world_connect w with
                       | Some e => Throws e
                       | None => Value tt
                       end).

(** [await client.callTool({ name, arguments })] *)
Definition callTool (name : jsstring) (arguments : JSON) : Proc ToolResult :=
  fun w => ([CallTool name arguments],
            match world_callTool w name arguments with
            | inl e => Throws e
            | inr result => Value result
            end).

(** [client.state] *)
Definition client_state : Proc value := fun w => ([], Value (world_state w)).

(** [await client.disconnect()] *)
Definition disconnect : Proc unit :=
  fun w => ([Disconnect], match world_disconnect w with
                          | Some e => Throws e
                          | None => Value tt
                          end).

(** [process.stdout.write(data)] *)
Definition stdout_write (data : jsstring) : Proc unit := emit (Stdout data).

(** The arguments of a [console] call, each as it is shown, with a space
    between them and a line break at the end. *)
Fixpoint line (shown : list jsstring) : jsstring :=
  match shown with
  | [] => nl
  | [s] => s ++ nl
  | s :: rest => s ++ [32%N] ++ line rest
  end.

(** [console.error(...)] *)
Definition console_error (shown : list jsstring) : Proc unit := emit (Stderr (line shown)).

(** [console.log(...)], which writes to the standard output. *)
Definition console_log (shown : list jsstring) : Proc unit := emit (Stdout (line shown)).

(** Library functions the script shows values with. *)
Class Inspect : Type := {
  (** an error, as [console.error] shows an argument that is not a string *)
  inspect : thrown -> jsstring;
  (** the object [{ error }], as [console.log] shows it *)
  inspect_wrapped : thrown -> jsstring;
  (** [JSON.stringify(result, null, 2)] *)
  stringify : ToolResult -> jsstring;
}.

(** A string or [undefined], as a [console] call or a template literal shows it. *)
Definition show (v : option jsstring) : jsstring :=
  match v with
  | Some s => s
  | None => str "undefined"
  end.

(** [UrlSchema.parse(v)] for [const UrlSchema = z.string().url()]. *)
Definition UrlSchema_parse `{RT : Runtime} (v : option jsstring) : thrown + jsstring :=
  match v with
  | Some url =>
      if zod_url url then inr url
      else inl (ZodError [invalid_string [] (str "Invalid url")])
  | None => inl (ZodError [invalid_type []])
  end.

(** [result?.content?.[0]?.data && result?.content?.[0]?.type === 'image'],
    and the data when the test holds. *)
Definition image_data (result : ToolResult) : option jsstring :=
  match result_content result with
  | Some (item :: _) =>
      match item_data item with
      | Some data =>
          if truthy data && bool_decide (item_type item = str "image")
          then Some data else None
      | None => None
      end
  | _ => None
  end.

Definition navigate_arguments (url : jsstring) : JSON := JObject [(str "url", JString url)].

Definition capture_arguments : JSON := JObject [(str "raw", JBool true)].

Definition found_message : jsstring :=
  str "Successfully extracted base64 data from result.content[0].data".

Definition not_found_message : jsstring :=
  str "Could not find base64 data in the expected structure: result.content[0].data".

End Process.

Declare Scope process_scope.
Delimit Scope process_scope with process.
Notation "'let*' x ':=' m 'in' k" := (Process.bind m (fun x => k))
  (at level 10, x name, m at level 100, k at level 200) : process_scope.

(* ===================================================================== *)
(** ** scripts/take-screenshot.mjs, the revision with one [run] function *)
(* ===================================================================== *)

Module Script.
Import Process.

Section Run.
Context `{RT : Runtime} `{IN : Inspect}.
Open Scope process_scope.

(** [async function run()]; [argv2] is [process.argv[2]]. *)
Definition run (argv2 : option jsstring) : Proc unit :=
  let targetUrl := argv2 in
  let* url :=
    Process.try_catch
      (Process.await (UrlSchema_parse targetUrl))
      (fun _ =>
         let* _ := console_error [str "Invalid URL provided:"; show targetUrl] in
         exit 1) in
  let* _ :=
    try_finally
      (Process.try_catch
         (let* _ := connect in
          let* _ := console_error [str "MCP Client connected. Navigating to: " ++ url] in
          let* _ := callTool (str "browser_navigate") (navigate_arguments url) in
          let* _ := console_error [str "Navigation complete. Taking screenshot..."] in
          let* result := callTool (str "browser_screen_capture") capture_arguments in
          let* _ := console_error [str "Screenshot taken. Processing result..."] in
          let* _ := console_error [str "MCP Screenshot RAW Result:"; stringify result] in
          let* base64Data :=
            match image_data result with
            | Some data =>
                let* _ := console_error [found_message] in
                Process.ret data
            | None =>
                let* _ := console_error [not_found_message] in
                Process.ret []
            end in
          if truthy base64Data then stdout_write base64Data
          else
            let* _ := stdout_write [] in
            console_error [str "No base64 data extracted, writing empty stdout."])
         (fun error =>
            let* _ := console_error [str "MCP Script Error:"; inspect error] in
            exit 1))
      (let* state := client_state in
       if bool_decide (state = Str (str "connected")) then
         let* _ := console_error [str "Disconnecting MCP client..."] in
         let* _ := disconnect in
         console_error [str "MCP Client disconnected."]
       else Process.ret tt) in
  exit 0.

End Run.

End Script.

(* ===================================================================== *)
(** ** scripts/take-screenshot.mjs, the revision made of small functions *)
(* ===================================================================== *)

Module ScriptFn.
Import Process.

(** [{ isValid: true, url }] or [{ isValid: false, error }] *)
Inductive Validation : Type :=
| Valid (url : option jsstring)
| Invalid (error : jsstring).

(** [{ success, data, message }] *)
Record Extraction : Type := mkExtraction {
  extraction_success : bool;
  extraction_data : jsstring;
  extraction_message : jsstring;
}.

Section Run.
Context `{RT : Runtime} `{IN : Inspect}.
Open Scope process_scope.

(** [const validateUrl = (url) => ...] *)
Definition validateUrl (url : option jsstring) : Proc Validation :=
  Process.try_catch
    (let* _ := Process.await (UrlSchema_parse url) in
     Process.ret (Valid url))
    (fun error =>
       let* _ := console_log [inspect_wrapped error] in
       Process.ret (Invalid (str "Invalid URL provided: " ++ show url))).

(** [const extractBase64Data = (result) => ...] *)
Definition extractBase64Data (result : ToolResult) : Extraction :=
  match image_data result with
  | Some data => mkExtraction true data found_message
  | None => mkExtraction false [] not_found_message
  end.

(** [const logError = (message) => ...] *)
Definition logError (message : jsstring) : Proc jsstring :=
  let* _ := console_error [message] in
  Process.ret message.

(** [const writeOutput = (data) => ...] *)
Definition writeOutput (data : jsstring) : Proc jsstring :=
  let* _ := stdout_write data in
  Process.ret data.

(** [const withClientDisconnection = (client) => async (operation) => ...] *)
Definition withClientDisconnection {A} (operation : Proc A) : Proc A :=
  try_finally
    (let* result := operation in
     Process.ret result)
    (let* state := client_state in
     if bool_decide (state = Str (str "connected")) then
       let* _ := logError (str "Disconnecting MCP client...") in
       let* _ := disconnect in
       let* _ := logError (str "MCP Client disconnected.") in
       Process.ret tt
     else Process.ret tt).

(** [const navigateAndScreenshot = (client) => async (url) => ...] *)
Definition navigateAndScreenshot (url : option jsstring) : Proc ToolResult :=
  let* _ := logError (str "MCP Client connected. Navigating to: " ++ show url) in
  let* _ := callTool (str "browser_navigate")
                     (JObject (match url with
                               | Some u => [(str "url", JString u)]
                               | None => []
                               end)) in
  let* _ := logError (str "Navigation complete. Taking screenshot...") in
  let* result := callTool (str "browser_screen_capture") capture_arguments in
  let* _ := logError (str "Screenshot taken. Processing result...") in
  let* _ := logError (str "MCP Screenshot RAW Result: " ++ stringify result) in
  Process.ret result.

(** [const executeScreenshot = async (url) => ...] *)
Definition executeScreenshot (url : option jsstring) : Proc jsstring :=
  withClientDisconnection
    (let* _ := connect in
     let* screenshotResult := navigateAndScreenshot url in
     let extractionResult := extractBase64Data screenshotResult in
     let* _ := logError (extraction_message extractionResult) in
     if extraction_success extractionResult
     then writeOutput (extraction_data extractionResult)
     else
       let* written := writeOutput [] in
       if truthy written
       then logError (str "No base64 data extracted, writing empty stdout.")
       else Process.ret written).

(** [error.message], as [+] appends it to a string. *)
Definition message_text (error : thrown) : jsstring :=
  match error with
  | ThrownError e => message e
  | ThrownOther => str "undefined"
  end.

(** [const withErrorHandling = (operation) => async (...args) => ...] *)
Definition withErrorHandling {A} (operation : Proc A) : Proc unit :=
  Process.try_catch
    (let* _ := operation in
     exit 0)
    (fun error =>
       let* _ := logError (str "MCP Script Error: " ++ message_text error) in
       exit 1).

(** [const run = withErrorHandling(async () => ...)]; [argv2] is
    [process.argv[2]]. *)
Definition run (argv2 : option jsstring) : Proc unit :=
  withErrorHandling
    (let targetUrl := argv2 in
     let* urlValidation := validateUrl targetUrl in
     match urlValidation with
     | Invalid error =>
         let* _ := logError error in
         exit 1
     | Valid url => executeScreenshot url
     end).

(** [const main = () => run()] *)
Definition main (argv2 : option jsstring) : Proc unit := run argv2.

End Run.

End ScriptFn.


(* ===================================================================== *)
(** ** src/app/page.tsx *)
(* ===================================================================== *)

(** A handler of a page runs from the state the page was rendered with: the
    state variables it reads are those of that state, and each [set...] call
    updates the state the next rendering shows.  A [fetch] of a route of this
    application is answered by that route. *)
Module Client.

(** [try { m } finally { f }] *)
Definition try_finally {S A} (m : M S A) (f : M S unit) : M S A :=
  fun s => pbind (m s) (fun r =>
    pbind (f (snd r)) (fun r' =>
      match r' with
      | (Normal _, s'') => Ret (fst r, s'')
      | (Abrupt e, s'') => Ret (Abrupt e, s'')
      end)).

(** [err.message || fallback] *)
Definition message_or (fallback : jsstring) (err : thrown) : jsstring :=
  match err with
  | ThrownError e => if truthy (message e) then message e else fallback
  | ThrownOther => fallback
  end.

(** A computation of the server, run while the page waits for it. *)
Definition on_server {P V A} (m : M V A) : M (P * V) A :=
  fun s => pbind (m (snd s)) (fun r => Ret (fst r, (fst s, snd r))).

(** A computation of the page. *)
Definition on_page {P V A} (m : M P A) : M (P * V) A :=
  fun s => pbind (m (fst s)) (fun r => Ret (fst r, (snd r, snd s))).

End Client.

(** The page with the two tabs, one for a URL and one for a description. *)
Module ShotPage.

Inductive Tab : Type := url_tab | ai_tab.

(** The state variables of [HomePage]. *)
Record State : Type := mkState {
  url : jsstring;
  prompt : jsstring;
  screenshotData : option jsstring;
  isLoading : bool;
  error : option jsstring;
  extractedUrl : option jsstring;
  activeTab : Tab;
}.


Definition setIsLoading (v : bool) : M State unit :=
  modify (fun s => mkState (url s) (prompt s) (screenshotData s) v (error s)
                           (extractedUrl s) (activeTab s)).

Definition setError (v : option jsstring) : M State unit :=
  modify (fun s => mkState (url s) (prompt s) (screenshotData s) (isLoading s) v
                           (extractedUrl s) (activeTab s)).


Definition fetch_failed : jsstring := str "Failed to fetch screenshot.".

Definition unexpected : jsstring := str "An unexpected error occurred.".

Section Handlers.
Context `{RT : Runtime}.
Open Scope prog_scope.




End Handlers.

End ShotPage.

(** The chat page. *)
Module ChatPage.

(** The state variables of [HomePage]; an entry of [messages] that is
    [undefined] is [None]. *)
Record State : Type := mkState {
  message : jsstring;
  messages : list (option ChatMessage);
  sessionId : option jsstring;
  isLoading : bool;
  error : option jsstring;
}.

Definition setMessage (v : jsstring) : M State unit :=
  modify (fun s => mkState v (messages s) (sessionId s) (isLoading s) (error s)).

(** [setMessages(prev => [...prev, entry])] *)
Definition addMessage (entry : option ChatMessage) : M State unit :=
  modify (fun s => mkState (message s) (messages s ++ [entry]) (sessionId s)
                           (isLoading s) (error s)).

Definition setSessionId (v : option jsstring) : M State unit :=
  modify (fun s => mkState (message s) (messages s) v (isLoading s) (error s)).

Definition setIsLoading (v : bool) : M State unit :=
  modify (fun s => mkState (message s) (messages s) (sessionId s) v (error s)).

Definition setError (v : option jsstring) : M State unit :=
  modify (fun s => mkState (message s) (messages s) (sessionId s) (isLoading s) v).

Definition failed : jsstring := str "Failed to get response.".

Definition unexpected : jsstring := str "An unexpected error occurred.".

Definition sorry (text : jsstring) : jsstring :=
  str "Sorry, I encountered an error: " ++ text.

(** [JSON.stringify({ sessionId: sessionId || null, message })], parsed again
    by the route. *)
Definition chat_body (sessionId : option jsstring) (message : jsstring) : JSON :=
  JObject [(str "sessionId",
            match sessionId with
            | Some s => if truthy s then JString s else JNull
            | None => JNull
            end);
           (str "message", JString message)].

(** [result.error], [result.sessionId] and [result.response] of a parsed body. *)
Definition result_error (result : Body) : option jsstring :=
  match result with Failure e => Some e | _ => None end.

Definition result_sessionId (result : Body) : option jsstring :=
  match result with
  | Turn sid _ _ _ => Some sid
  | History sid _ _ _ => Some sid
  | Failure _ => None
  end.

Definition result_response (result : Body) : option ChatMessage :=
  match result with Turn _ a _ _ => Some a | _ => None end.

Section Handlers.
Context `{RT : Runtime}.
Open Scope prog_scope.

Definition Both : Type := (State * gmap jsstring ChatSession)%type.

(** [fetch('/api/chat', { method: 'POST', ... })] *)
Definition fetch_chat (sent : JSON) : M Both (Response Body) :=
  let* transport := call (Fetch (str "/api/chat") sent) in
  match transport with
  | Some e => throw e
  | None => Client.on_server (Chat.POST (inr sent))
  end.

(** [const handleSendMessage = async () => ...] *)
Definition handleSendMessage : M Both unit :=
  let* rendered := Client.on_page get in
  let message := message rendered in
  let sessionId := sessionId rendered in
  if negb (truthy (trim message)) then ret tt
  else
    let* now := call NewDate in
    let userMessage := plain user message now in
    let* _ := Client.on_page (addMessage (Some userMessage)) in
    let* _ := Client.on_page (setMessage []) in
    let* _ := Client.on_page (setIsLoading true) in
    let* _ := Client.on_page (setError None) in
    Client.try_finally
      (try_catch
         (let* response := fetch_chat (chat_body sessionId (content userMessage)) in
          let result := body response in
          if negb (AiScreenshot.ok response) || negb (success result) then
            throw (ThrownError
                     (mkError (match result_error result with
                               | Some e => if truthy e then e else failed
                               | None => failed
                               end)))
          else
            let* _ :=
              match sessionId ≫= (fun s => if truthy s then Some s else None),
                    result_sessionId result ≫= (fun s => if truthy s then Some s else None)
              with
              | None, Some sid => Client.on_page (setSessionId (Some sid))
              | _, _ => ret tt
              end in
            Client.on_page (addMessage (result_response result)))
         (fun err =>
            let* _ := Client.on_page (setError (Some (Client.message_or unexpected err))) in
            let* now := call NewDate in
            Client.on_page
              (addMessage (Some (plain assistant
                                   (sorry (Client.message_or (str "Unknown error") err))
                                   now)))))
      (Client.on_page (setIsLoading false)).

(** [handleKeyDown], for a key event with [e.key] and [e.shiftKey]. *)
Definition handleKeyDown (key : jsstring) (shiftKey : bool) : M Both unit :=
  if bool_decide (key = str "Enter") && negb shiftKey then handleSendMessage
  else ret tt.

End Handlers.


End ChatPage.

(* ===================================================================== *)
(** ** Further notions *)
(* ===================================================================== *)

Module Calls.

(** Every call the program can make, whatever the answers, satisfies [P]. *)
Fixpoint every_call {A} (P : Call -> Prop) (p : Prog A) : Prop :=
  match p with
  | Ret _ => True
  | Do c k => P c /\ forall x, every_call P (k x)
  end.

(** On every path through the program, at most [n] of its calls are selected
    by [sel]. *)
Fixpoint at_most {A} (sel : Call -> bool) (n : nat) (p : Prog A) : Prop :=
  match p with
  | Ret _ => True
  | Do c k =>
      if sel c then
        match n with
        | O => False
        | S n' => forall x, at_most sel n' (k x)
        end
      else forall x, at_most sel n (k x)
  end.

Definition is_generate (c : Call) : bool :=
  match c with GenerateContent _ _ _ => true | _ => false end.

Definition is_fetch (c : Call) : bool :=
  match c with Fetch _ _ => true | _ => false end.

Definition is_spawn (c : Call) : bool :=
  match c with Spawn _ _ => true | _ => false end.

Definition is_uuid (c : Call) : bool :=
  match c with Uuidv4 => true | _ => false end.

(** The helper is started as [node <script> <url>], with a URL the schema of
    the screenshot route accepted. *)
Definition valid_spawn `{RT : Runtime} (c : Call) : Prop :=
  match c with
  | Spawn command args =>
      command = str "node"
      /\ exists url, args = [script_path; url] /\ zod_url url = true
  | _ => True
  end.

End Calls.
Import Calls.

Module Budget.

(** On every path, at most [generate] requests to Gemini, [fetch] requests to
    another route and [spawn] child processes. *)
Definition within {A} (generate fetch spawn : nat) (p : Prog A) : Prop :=
  at_most is_generate generate p /\ at_most is_fetch fetch p /\ at_most is_spawn spawn p.

End Budget.
Import Budget.

Module Requests.

(** The messages the session a request names holds before the turn; none when
    the request names no session of the store. *)
Definition history_of (store : gmap jsstring ChatSession) (sessionId : value)
    : list ChatMessage :=
  match usable sessionId ≫= (fun s => store !! s) with
  | Some session => messages session
  | None => []
  end.

(** The request to Gemini of a turn of the function-calling revision: the
    tools are declared, and [contents] has one entry for each user or
    assistant message of the session, in order, followed by the entry of the
    new message. *)
Definition chat_request (store : gmap jsstring ChatSession) (sessionId : value)
    (message : jsstring) (c : Call) : Prop :=
  match c with
  | GenerateContent tools contents config =>
      tools = true
      /\ config = mkConfig 7 800
      /\ contents
         = (GeminiTools.toGemini
              <$> filter (fun msg => role msg = user \/ role msg = assistant)
                         (history_of store sessionId))
           ++ [mkContent (str "user") message]
  | _ => True
  end.

End Requests.
Import Requests.

Module Fields.

(** How the three parts of a turn's answer go together: without the intent
    there is no URL and no screenshot; a screenshot comes with the intent and
    with the URL the response names; the intent without a usable URL gets
    the fixed request for one. *)
Definition consistent (a : ChatMessage) (extractedUrl : value) (intent : bool) : Prop :=
  (intent = false -> extractedUrl = Null /\ isScreenshot a = None)
  /\ (isScreenshot a = Some true ->
      intent = true
      /\ exists url, url <> [] /\ extractedUrl = Str url /\ screenshotUrl a = Some url)
  /\ (intent = true -> usable extractedUrl = None ->
      content a = no_url_reply /\ isScreenshot a = None).

End Fields.
Import Fields.

Module AiNotions.

(** The answer of the route for the URL [url], given what came back from the
    screenshot route: the payload with the URL, or a 500 that carries the text
    of the failure. *)
Definition ai_answer (url : jsstring) (got : Completion Screenshot.Body)
    : Response AiScreenshot.Body :=
  match got with
  | Normal (Screenshot.Success d) => json (AiScreenshot.Success d url)
  | Normal (Screenshot.Failure e) =>
      json_status
        (AiScreenshot.Failure (if truthy e then e else AiScreenshot.fetch_failed)) 500
  | Abrupt (ThrownError e) =>
      json_status
        (AiScreenshot.Failure
           (if truthy (message e) then message e else AiScreenshot.default_error)) 500
  | Abrupt ThrownOther =>
      json_status (AiScreenshot.Failure AiScreenshot.default_error) 500
  end.

End AiNotions.
Import AiNotions.

Module Revisions.

(** Two programs make the same calls and, as long as the answers satisfy [ok],
    end with results related by [R]. *)
Inductive related {A B} (ok : forall c, Answer c -> Prop) (R : A -> B -> Prop)
    : Prog A -> Prog B -> Prop :=
| related_ret (a : A) (b : B) : R a b -> related ok R (Ret a) (Ret b)
| related_do (c : Call) (k : Answer c -> Prog A) (k' : Answer c -> Prog B) :
    (forall x, ok c x -> related ok R (k x) (k' x)) -> related ok R (Do c k) (Do c k').

(** The same calls and the same result. *)
Definition agree {A} (ok : forall c, Answer c -> Prop) (p q : Prog A) : Prop :=
  related ok eq p q.

(** The replies of a script satisfy [ok], whatever call they answer. *)
Definition admissible (ok : forall c, Answer c -> Prop) (script : list Reply) : Prop :=
  Forall (fun reply => forall c x, coerce c reply = Some x -> ok c x) script.

(** A rejected [fetch] gives an error whose message is not empty. *)
Definition fetch_error_has_message (c : Call) : Answer c -> Prop :=
  match c with
  | Fetch _ _ => fun x =>
      match x with
      | Some (ThrownError e) => message e <> []
      | _ => True
      end
  | _ => fun _ => True
  end.

(** What [req.json()] or the schema throw for this request, if they do, has a
    message that is not empty. *)
Definition rejection_has_message `{RT : Runtime} (req_json : thrown + JSON) : Prop :=
  forall e,
    req_json = inl (ThrownError e)
    \/ (exists payload, req_json = inr payload
                        /\ MessageSchema_parse payload = inl (ThrownError e)) ->
    message e <> [].

End Revisions.
Import Revisions.

Module TwoCallNotions.

(** The test [msg.role === 'user' || msg.role === 'assistant']. *)
Definition conversational (msg : ChatMessage) : bool :=
  bool_decide (role msg = user \/ role msg = assistant).

(** The references the session a request names holds before the turn. *)
Definition heap_history_of (st : Heap.State) (sessionId : value) : list Heap.ref :=
  match usable sessionId ≫= (fun s => Heap.chatSessions st !! s) with
  | Some session => Heap.messages session
  | None => []
  end.

(** What one [POST] to the two-call revision can end with: the request was
    rejected and the state is as before, or a session was resolved, the user
    message became a new object, [generateChatResponse] had its way with the
    objects when the turn was not a screenshot request, and the assistant
    message became the next new object. *)
Definition two_call_turn_outcome `{RT : Runtime} (ok : forall c, Answer c -> Prop)
    (st : Heap.State) (req_json : thrown + JSON)
    (rs : Completion (Response Body) * Heap.State) : Prop :=
  (exists e,
      rs = (Normal (json_status (Failure e) 500), st)
      /\ forall payload parsed, req_json = inr payload ->
                                MessageSchema_parse payload <> inr parsed)
  \/ (exists payload message sessionId key base now a u (i : bool),
        req_json = inr payload
        /\ MessageSchema_parse payload = inr (message, sessionId)
        /\ ((exists old t,
               usable sessionId = Some key /\ Heap.chatSessions st !! key = Some old
               /\ base = ChatTwoCall.touch old t)
            \/ (exists created updated,
                  (usable sessionId ≫= (fun s => Heap.chatSessions st !! s)) = None
                  /\ ok Uuidv4 key
                  /\ base = Heap.mkSession key [] created updated))
        /\ role a = assistant
        /\ let n := length (Heap.objects st) in
           let st2 :=
             Heap.mkState (Heap.objects st ++ [plain user message now])
                          (<[key := ChatTwoCall.push base n]> (Heap.chatSessions st)) in
           let st3 := if i then st2 else primed (Heap.messages base ++ [n]) st2 in
           rs = (Normal (json (Turn (Heap.id base) a u i)),
                 Heap.mkState
                   (Heap.objects st3 ++ [a])
                   (<[key := ChatTwoCall.push (ChatTwoCall.push base n)
                                              (length (Heap.objects st3))]>
                      (Heap.chatSessions st)))).

End TwoCallNotions.
Import TwoCallNotions.

Module ProcessNotions.
Import Process.

(** Everything a run wrote to its standard output, in order. *)
Definition stdout_text (t : list Event) : jsstring :=
  concat (omap (fun ev => match ev with Stdout d => Some d | _ => None end) t).

(** The requests a run made to the MCP client, in order. *)
Definition requests (t : list Event) : list Event :=
  omap (fun ev => match ev with
                  | Connect | CallTool _ _ | Disconnect => Some ev
                  | _ => None
                  end) t.

(** The result of the capture, when the connection, the navigation and the
    capture all succeed. *)
Definition captured (w : World) (url : jsstring) : option ToolResult :=
  match world_connect w with
  | Some _ => None
  | None =>
      match world_callTool w (str "browser_navigate") (navigate_arguments url) with
      | inl _ => None
      | inr _ =>
          match world_callTool w (str "browser_screen_capture") capture_arguments with
          | inl _ => None
          | inr result => Some result
          end
      end
  end.

(** The client reports that it is connected. *)
Definition connected (w : World) : bool :=
  bool_decide (world_state w = Str (str "connected")).

(** The requests up to the first that fails: the connection, the navigation
    to [url], the capture. *)
Definition attempted (w : World) (url : jsstring) : list Event :=
  Connect ::
  match world_connect w with
  | Some _ => []
  | None =>
      CallTool (str "browser_navigate") (navigate_arguments url) ::
      match world_callTool w (str "browser_navigate") (navigate_arguments url) with
      | inl _ => []
      | inr _ => [CallTool (str "browser_screen_capture") capture_arguments]
      end
  end.

(** A run of the child process, as the route that spawned it sees it, is a run
    of the script with trace [t] that called [process.exit(code)]: the child
    started, its standard output is what the script wrote, and it closed with
    that code. *)
Definition seen_as (t : list Event) (code : Z) (r : ChildRun) : Prop :=
  spawn_error r = None /\ stdout_of r = stdout_text t /\ close_code r = Some code.

End ProcessNotions.

Module DemoInspect.
Import Process.

Definition inspect_demo (e : thrown) : jsstring :=
  match e with
  | ThrownError e => str "Error: " ++ message e
  | ThrownOther => str "undefined"
  end.

#[export] Instance inspection : Inspect := {|
  inspect := inspect_demo;
  inspect_wrapped := fun e => str "{ error: " ++ inspect_demo e ++ str " }";
  stringify := fun _ => str "{}";
|}.

End DemoInspect.

Module PageNotions.
Import ChatPage.





End PageNotions.
Import PageNotions.

Module PageContracts.


End PageContracts.
Import PageContracts.

Module ShotNotions.
Import ShotPage.


End ShotNotions.

Module Inputs.

(** The request body [{ sessionId: "s1", message: "again" }]. *)
Definition again_payload : JSON :=
  JObject [(str "sessionId", JString (str "s1")); (str "message", JString (str "again"))].

(** The request body [{ prompt: "a screenshot of example.com" }]. *)
Definition prompt_payload : JSON :=
  JObject [(str "prompt", JString (str "a screenshot of example.com"))].

Definition example_url : jsstring := str "https://example.com".

(** The request body [{ url: "https://example.com" }]. *)
Definition url_payload : JSON := JObject [(str "url", JString example_url)].

(** A child that writes its output in two chunks, with a warning in between. *)
Definition chunked_run : ChildRun :=
  mkRun [StdoutData (str "QU"); StderrData (str "warning"); StdoutData (str "JD")] (Some 0).

(** A child that writes the same output at once. *)
Definition whole_run : ChildRun := mkRun [StdoutData (str "QUJD")] (Some 0).

(** An MCP client that connects, answers every tool call with one image, and
    disconnects. *)
Definition capturing_world : Process.World :=
  Process.mkWorld None
    (fun _ _ => inr (Process.mkToolResult
                       (Some [Process.mkItem (str "image") (Some (str "QUJD"))])))
    (Str (str "connected")) None.


End Inputs.
Import Inputs.


(* ===================================================================== *)
(** * Properties *)
(* ===================================================================== *)

(** ** Programs *)

Lemma always_mono {A} (ok : forall c, Answer c -> Prop) (P Q : A -> Prop) (p : Prog A) :
  (forall a, P a -> Q a) -> always ok P p -> always ok Q p.
Proof.
  intros HPQ. induction p as [a | c k IH]; simpl; [apply HPQ |].
  intros Hk x Hx. apply IH, Hk, Hx.
Qed.

Lemma always_pbind {A B} (ok : forall c, Answer c -> Prop) (P : B -> Prop)
    (p : Prog A) (f : A -> Prog B) :
  always ok (fun a => always ok P (f a)) p -> always ok P (pbind p f).
Proof.
  induction p as [a | c k IH]; simpl; [done |].
  intros Hk x Hx. apply IH, Hk, Hx.
Qed.


Lemma always_bind {S A B} (ok : forall c, Answer c -> Prop)
    (Q : Completion B * S -> Prop) (m : M S A) (f : A -> M S B) (s : S) :
  always ok (fun rs => match rs with
                       | (Normal a, s') => always ok Q (f a s')
                       | (Abrupt e, s') => Q (Abrupt e, s')
                       end) (m s) ->
  always ok Q (bind m f s).
Proof.
  intros Hm. unfold bind. apply always_pbind.
  eapply always_mono; [| exact Hm]. by intros [[a | e] s'].
Qed.

Lemma always_bind_normally {S A B} (ok : forall c, Answer c -> Prop)
    (P : A -> S -> Prop) (Q : Completion B * S -> Prop)
    (m : M S A) (f : A -> M S B) (s : S) :
  always ok (normally P) (m s) ->
  (forall a s', P a s' -> always ok Q (f a s')) ->
  always ok Q (bind m f s).
Proof.
  intros Hm Hf. apply always_bind. eapply always_mono; [| exact Hm].
  intros [[a | e] s']; simpl; [apply Hf | done].
Qed.

Lemma always_try_catch {S A} (ok : forall c, Answer c -> Prop)
    (Q : Completion A * S -> Prop) (m : M S A) (h : thrown -> M S A) (s : S) :
  always ok (fun rs => match rs with
                       | (Normal a, s') => Q (Normal a, s')
                       | (Abrupt e, s') => always ok Q (h e s')
                       end) (m s) ->
  always ok Q (try_catch m h s).
Proof.
  intros Hm. unfold try_catch. apply always_pbind.
  eapply always_mono; [| exact Hm]. by intros [[a | e] s'].
Qed.

(** One step of a handler: the first computation of a [let*], evaluated. *)
Ltac step :=
  apply always_bind;
  cbn [always pbind call ret await get modify throw Chat.save ChatTwoCall.save fst snd].

(** All of a handler at once, for the short ones. *)
Ltac exec := unfold bind, try_catch, ret, throw, await, call, get, modify; simpl.

(** ** The screenshot route *)

Lemma collect_stdout_from (evs : list ChildEvent) (st : Screenshot.Collected) :
  Screenshot.stdoutData (foldl Screenshot.listen st evs)
  = Screenshot.stdoutData st ++ stdout_of (mkRun evs None).
Proof.
  revert st. induction evs as [| ev evs IH]; intros st; simpl.
  - by rewrite app_nil_r.
  - rewrite IH. unfold stdout_of. destruct ev; simpl.
    + by rewrite app_assoc.
    + by destruct (truthy (trim data)).
    + done.
Qed.

Lemma collect_stderr_from (evs : list ChildEvent) (st : Screenshot.Collected) :
  Screenshot.stderrData (foldl Screenshot.listen st evs)
  = Screenshot.stderrData st ++ stderr_of (mkRun evs None).
Proof.
  revert st. induction evs as [| ev evs IH]; intros st; simpl.
  - by rewrite app_nil_r.
  - rewrite IH. unfold stderr_of. destruct ev; simpl.
    + done.
    + destruct (truthy (trim data)); simpl; [| done].
      by rewrite <- !app_assoc.
    + done.
Qed.

Lemma collect_error_from (evs : list ChildEvent) (st : Screenshot.Collected) :
  Screenshot.processError (foldl Screenshot.listen st evs)
  = match spawn_error (mkRun evs None) with
    | Some e => Some e
    | None => Screenshot.processError st
    end.
Proof.
  revert st. induction evs as [| ev evs IH]; intros st; simpl; [done |].
  rewrite IH. unfold spawn_error. destruct ev; simpl.
  - done.
  - by destruct (truthy (trim data)).
  - rewrite last_cons. by destruct (last _).
Qed.

Lemma collect_spec (r : ChildRun) :
  Screenshot.collect r = Screenshot.mkCollected (stdout_of r) (stderr_of r) (spawn_error r).
Proof.
  destruct r as [evs code]. unfold Screenshot.collect. simpl.
  pose proof (collect_stdout_from evs Screenshot.initial) as H1.
  pose proof (collect_stderr_from evs Screenshot.initial) as H2.
  pose proof (collect_error_from evs Screenshot.initial) as H3.
  destruct (foldl Screenshot.listen Screenshot.initial evs) as [o e pe].
  simpl in *. subst. unfold spawn_error, stdout_of, stderr_of. simpl.
  by destruct (last _).
Qed.

(** A request the schema accepts starts the helper once, with the script and
    the URL as arguments, and answers with what the ['close'] listener
    computes; the state is not touched. *)
Lemma screenshot_post_valid `{RT : Runtime} {S} (payload : JSON) (url : jsstring) (s : S) :
  Screenshot.RequestSchema_parse payload = inr url ->
  Screenshot.POST (inr payload) s
  = Do (Spawn (str "node") [script_path; url]) (fun r => Ret (Normal (respond r), s)).
Proof.
  intros Hp. unfold Screenshot.POST, bind, try_catch, await. simpl.
  rewrite Hp. reflexivity.
Qed.

(** A request whose body is not JSON, or which the schema rejects, is answered
    with status 400 without any call. *)
Lemma screenshot_post_invalid `{RT : Runtime} {S} (req_json : thrown + JSON) (s : S) :
  (forall payload url, req_json = inr payload ->
                       Screenshot.RequestSchema_parse payload <> inr url) ->
  Screenshot.POST req_json s
  = Ret (Normal (json_status (Screenshot.Failure (str "Invalid request body or URL.")) 400), s).
Proof.
  intros Hbad. unfold Screenshot.POST, bind, try_catch, await.
  destruct req_json as [e | payload]; simpl; [done |].
  destruct (Screenshot.RequestSchema_parse payload) as [e | url] eqn:Hp; simpl; [done |].
  by destruct (Hbad payload url).
Qed.


Lemma truthy_nonempty (s : jsstring) : truthy s = true <-> s <> [].
Proof. destruct s; simpl; split; congruence. Qed.




(** ** The history lookup *)

(** C8, as the route has it.  The lookup makes no call and leaves the store as
    it was.  A missing or empty [sessionId] parameter is answered with 400; a
    non-empty one that names no session with 404; otherwise the response is
    the session stored under it: its id, its messages in order, [createdAt]
    and [updatedAt]. *)
Theorem history_lookup (sessionId : option jsstring) (store : gmap jsstring ChatSession) :
  exists resp,
    Chat.GET sessionId store = Ret (Normal resp, store)
    /\ (sessionId = None \/ sessionId = Some []
        -> resp = json_status (Failure (str "Session ID is required")) 400)
    /\ (forall s, sessionId = Some s -> s <> [] -> store !! s = None
        -> resp = json_status (Failure (str "Session not found")) 404)
    /\ (forall s session, sessionId = Some s -> s <> [] -> store !! s = Some session
        -> resp = json (History (id session) (messages session)
                                (createdAt session) (updatedAt session))).
Proof.
  unfold Chat.GET, bind, get, ret.
  destruct sessionId as [[| c s] |]; simpl.
  - eexists; split; [reflexivity |]. repeat split; try done.
    + by intros s [= <-].
    + by intros s session [= <-].
  - destruct (store !! (c :: s)) as [session |] eqn:Hs; simpl.
    + eexists; split; [reflexivity |]. repeat split.
      * by intros [? | ?].
      * intros s' [= <-] _ ?. congruence.
      * intros s' session' [= <-] _ ?. congruence.
    + eexists; split; [reflexivity |]. repeat split.
      * by intros [? | ?].
      * intros s' session' [= <-] _ ?. congruence.
  - eexists; split; [reflexivity |]. repeat split; done.
Qed.

(** A lookup that finds its session. *)
Lemma history_lookup_witness :
  let session := mkSession (str "s1") [plain user (str "hello") 1] 1 2 in
  Chat.GET (Some (str "s1")) {[ str "s1" := session ]}
  = Ret (Normal (json (History (str "s1") [plain user (str "hello") 1] 1 2)),
         {[ str "s1" := session ]}).
Proof.
  intros session.
  destruct (history_lookup (Some (str "s1")) {[ str "s1" := session ]})
    as (resp & Hrun & _ & _ & Hfound).
  rewrite Hrun.
  rewrite (Hfound (str "s1") session); [reflexivity | reflexivity | discriminate |].
  apply lookup_singleton_eq.
Defined.

(** C8 as the specification words it fails: a [sessionId] parameter that is
    present but empty names no session, and is answered with 400, not 404. *)
Lemma history_empty_parameter_is_400 :
  (∅ : gmap jsstring ChatSession) !! ([] : jsstring) = None
  /\ result_of (Chat.GET (Some []) ∅)
     = Some (Normal (json_status (Failure (str "Session ID is required")) 400), ∅)
  /\ status (json_status (Failure (str "Session ID is required")) 400) <> 404.
Proof. repeat split; done. Qed.

(** ** The chat route, function-calling revision *)

(** The outcomes of the ['close'] listener, by its three tests. *)
Lemma respond_cases (r : ChildRun) :
  match spawn_error r with
  | Some e => respond r = json_status (Screenshot.Failure (spawn_failure_text e)) 500
  | None =>
      if bool_decide (close_code r = Some 0) then
        if truthy (stdout_of r) then respond r = json (Screenshot.Success (stdout_of r))
        else respond r = json_status (Screenshot.Failure empty_output_text) 500
      else
        respond r
        = json_status (Screenshot.Failure (exit_failure_text (close_code r) (stderr_of r))) 500
  end.
Proof.
  unfold respond. rewrite collect_spec. unfold Screenshot.on_close. simpl.
  destruct (spawn_error r); [done |].
  case_bool_decide; simpl; [| done]. by destruct (truthy (stdout_of r)).
Qed.

(** A success response never carries an empty payload. *)
Lemma respond_success (r : ChildRun) (d : jsstring) :
  body (respond r) = Screenshot.Success d -> d <> [].
Proof.
  pose proof (respond_cases r) as Hc.
  destruct (spawn_error r); [by rewrite Hc |].
  case_bool_decide; [| by rewrite Hc].
  destruct (truthy (stdout_of r)) eqn:Ht; rewrite Hc; simpl; [| done].
  intros [= <-]. by apply truthy_nonempty.
Qed.

Section ChatTurn.
Context `{RT : Runtime} (ok : forall c, Answer c -> Prop).

(** [generateChatResponse] always returns, and leaves the state alone. *)
Lemma generate_tools_always {S} (history : list ChatMessage) (s : S) :
  always ok (normally (fun _ s' => s' = s)) (GeminiTools.generateChatResponse history s).
Proof.
  unfold GeminiTools.generateChatResponse. exec.
  intros [e | response] _; simpl; [done |].
  destruct (response_text response) as [e | responseText]; simpl; [done |].
  destruct (response_functionCalls response) as [e | [[| fc l] |]]; simpl; done.
Qed.

Lemma screenshot_post_always {S} (req_json : thrown + JSON) (s : S) :
  always ok
    (normally (fun resp s' =>
       s' = s /\ forall d, body resp = Screenshot.Success d -> d <> []))
    (Screenshot.POST req_json s).
Proof.
  unfold Screenshot.POST. exec.
  destruct req_json as [e | payload]; simpl; [done |].
  destruct (Screenshot.RequestSchema_parse payload); simpl; [done |].
  intros r _. split; [done |]. apply respond_success.
Qed.

Lemma fetch_screenshot_always {S} (sent : JSON) (s : S) :
  always ok
    (fun rs => snd rs = s
               /\ forall d, fst rs = Normal (Screenshot.Success d) -> d <> [])
    (fetch_screenshot sent s).
Proof.
  unfold fetch_screenshot. exec. intros [e |] _; simpl; [done |].
  apply always_pbind. eapply always_mono; [| apply screenshot_post_always].
  intros [[resp | e] s'] Hn; simpl in *; [| done].
  destruct Hn as [-> Hd]. split; [done |]. intros d [= Hb]. by apply Hd.
Qed.

(** The assistant message of a turn: always composed, never at the expense of
    the store, and with its screenshot fields all set or all unset. *)
Lemma compose_always (response : FunctionCallResult) (extractedUrl : value)
    (intent : bool) (store : gmap jsstring ChatSession) :
  always ok
    (normally (fun a store' => store' = store /\ role a = assistant /\ paired a))
    (Chat.compose response extractedUrl intent store).
Proof.
  unfold Chat.compose.
  destruct (intent && truthy_value extractedUrl) eqn:Hgo.
  - apply andb_true_iff in Hgo as [-> Hurl].
    destruct extractedUrl as [| | url]; simpl in Hurl; try done.
    unfold try_catch. apply always_pbind.
    unfold bind. apply always_pbind.
    eapply always_mono; [| apply fetch_screenshot_always].
    intros [[[d | err] | e] s'] [Hs Hd]; simpl in *; subst s'.
    + intros now _. simpl. repeat split; try done. right.
      rewrite Hurl. repeat split; try done.
      * exists url. split; [done |]. by apply truthy_nonempty.
      * exists d. split; [done |]. by apply Hd.
    + intros now _. simpl. repeat split; try done. by left.
    + intros now _. simpl. repeat split; try done. by left.
  - destruct intent; exec; intros now _; (repeat split; try done; by left).
Qed.

(** Every execution of [POST] ends as [turn_outcome] describes. *)
Lemma post_turn (store : gmap jsstring ChatSession) (req_json : thrown + JSON) :
  always ok (turn_outcome ok store req_json) (Chat.POST req_json store).
Proof.
  unfold Chat.POST.
  apply always_try_catch.
  destruct req_json as [e | payload].
  { exec. left. eexists. split; [reflexivity | done]. }
  destruct (MessageSchema_parse payload) as [e | [message sessionId]] eqn:Hparse.
  { exec. rewrite Hparse. simpl. left. eexists. split; [reflexivity |].
    intros ? ? [= <-]. by rewrite Hparse. }
  step. step. rewrite Hparse. cbn [always await ret]. step. apply always_bind.
  assert (forall key base store1 (Q : _ -> Prop),
    (forall now a u i, role a = assistant -> paired a ->
       Q (Normal (json (Turn (id base) a u i)),
          <[key := Chat.push (Chat.push base (plain user message now)) a]>
            (<[key := Chat.push base (plain user message now)]> store1))) ->
    always ok
      (fun rs => match rs with
                 | (Normal a0, s0) => Q (Normal a0, s0)
                 | (Abrupt e, s0) =>
                     Q (Normal (json_status
                                  (Failure match e with
                                           | ThrownError e0 => JS.message e0
                                           | ThrownOther => default_error
                                           end) 500), s0)
                 end)
      ((let* now := call NewDate in
        let* _ := Chat.save key (Chat.push base (plain user message now)) in
        let* response :=
          GeminiTools.generateChatResponse
            (messages (Chat.push base (plain user message now))) in
        let* assistantMessage :=
          Chat.compose response (Chat.url_argument response)
                       (Chat.wants_screenshot response) in
        let* _ :=
          Chat.save key (Chat.push (Chat.push base (plain user message now))
                                   assistantMessage) in
        ret (json (Turn (id (Chat.push (Chat.push base (plain user message now))
                                       assistantMessage))
                        assistantMessage (Chat.url_argument response)
                        (Chat.wants_screenshot response))))%prog store1)) as Hrest.
  { intros key base store1 Q HQ.
    step. intros now _. step.
    eapply always_bind_normally; [apply generate_tools_always |].
    intros response s' ->.
    eapply always_bind_normally; [apply compose_always |].
    intros a s' (-> & Hrole & Hpaired).
    step. by apply HQ. }
  destruct (usable sessionId ≫= _) as [[key old] |] eqn:Hres.
  - step. intros now _. step. apply Hrest.
    intros now' a u i Hrole Hpaired. right.
    apply bind_Some in Hres as (s & Hs & Hl).
    apply fmap_Some in Hl as (old' & Hold & [= <- <-]).
    exists payload, message, sessionId, key, (Chat.touch old now), now', a.
    repeat split; try done.
    + left. by exists old, now.
    + exists u, i. by rewrite !insert_insert_eq.
  - step. intros key Hkey. step. intros created _. step. intros updated _. step.
    apply Hrest.
    intros now' a u i Hrole Hpaired. right.
    exists payload, message, sessionId, key, (mkSession key [] created updated), now', a.
    repeat split; try done.
    + right. exists created, updated. repeat split; try done.
      destruct (usable sessionId) as [s |]; simpl in *; [| done].
      by destruct (store !! s).
    + exists u, i. by rewrite !insert_insert_eq.
Qed.

End ChatTurn.


(** The store the application starts with keeps every session under its own
    id, and every [POST] keeps it so. *)
Lemma keyed_by_id_empty : keyed_by_id ∅.
Proof. intros key session Hk. by rewrite lookup_empty in Hk. Qed.

Lemma post_keeps_keyed `{RT : Runtime} (store : gmap jsstring ChatSession)
    (req_json : thrown + JSON) :
  keyed_by_id store ->
  always any_answer (fun rs => keyed_by_id (snd rs)) (Chat.POST req_json store).
Proof.
  intros Hwf. eapply always_mono; [| apply post_turn].
  intros [r store'] Hout. simpl.
  destruct Hout as [(e & [= -> ->] & _)
                   | (payload & message & sessionId & key & base & now & a
                      & _ & _ & Hres & _ & _ & u & i & [= -> ->])]; [done |].
  intros k session Hk.
  destruct (decide (key = k)) as [<- | Hne].
  - rewrite lookup_insert_eq in Hk. injection Hk as <-. simpl.
    destruct Hres as [(old & t & _ & Hold & ->) | (c & t & _ & _ & ->)]; simpl.
    + by apply Hwf.
    + done.
  - rewrite lookup_insert_ne in Hk by done. by apply Hwf.
Qed.





(** ** Validation in the chat route *)

(** C2, at the request that shows the defect.  A chat request with an empty
    message is answered without any call and without touching the store, but
    with status 500 and the text of the validation error, in both revisions
    of the route; the screenshot route answers its invalid requests with 400
    ([screenshot_post_invalid]). *)
Theorem chat_post_empty_message_is_500 `{RT : Runtime}
    (store : gmap jsstring ChatSession) (st : Heap.State) :
  Chat.POST empty_message_request store
  = Ret (Normal (json_status
                   (Failure (zod_message [too_small [str "message"]
                                                    (str "Message is required")])) 500),
         store)
  /\ ChatTwoCall.POST empty_message_request st
     = Ret (Normal (json_status
                      (Failure (if truthy (zod_message [too_small [str "message"]
                                                    (str "Message is required")]) then (zod_message [too_small [str "message"]
                                                    (str "Message is required")]) else default_error)) 500),
            st).
Proof. split; reflexivity. Qed.


(** ** The Gemini wrappers *)

Section Wrappers.
Context `{RT : Runtime}.

Lemma extract_always {S} (prompt : jsstring) (s : S) :
  always any_answer returns (GeminiText.extractUrlFromPrompt prompt s)
  /\ always llm_fails (fun rs => rs = (Normal None, s)) (GeminiText.extractUrlFromPrompt prompt s).
Proof.
  unfold GeminiText.extractUrlFromPrompt, new_URL. split; exec.
  - intros [e | response] _; simpl; [done |].
    destruct (response_text response) as [e | raw]; simpl; [done |].
    case_bool_decide; simpl; [done |].
    destruct (URL_href (trim raw)); simpl; [done |].
    destruct (negb _ && negb _); simpl; [| done].
    by destruct (URL_href _).
  - intros [e | response]; simpl; [done |].
    by destruct (response_text response).
Qed.

Lemma detect_always {S} (message : jsstring) (s : S) :
  always any_answer returns (GeminiText.detectScreenshotIntent message s)
  /\ always llm_fails (fun rs => rs = (Normal false, s)) (GeminiText.detectScreenshotIntent message s).
Proof.
  unfold GeminiText.detectScreenshotIntent. split; exec.
  - intros [e | response] _; simpl; [done |].
    by destruct (response_text response) as [e | raw].
  - intros [e | response]; simpl; [done |].
    by destruct (response_text response).
Qed.

Lemma generate_tools_fails {S} (history : list ChatMessage) (s : S) :
  always any_answer returns (GeminiTools.generateChatResponse history s)
  /\ always llm_fails (fun rs => rs = (Normal (mkResult apology None), s))
       (GeminiTools.generateChatResponse history s).
Proof.
  split.
  - eapply always_mono; [| apply generate_tools_always]. by intros [[] ?].
  - unfold GeminiTools.generateChatResponse. exec.
    intros [e | response]; simpl; [done |].
    by destruct (response_text response).
Qed.

Lemma generate_text_always (history : list Heap.ref) (st : Heap.State) :
  always any_answer returns (GeminiText.generateChatResponse history st)
  /\ always llm_fails (fun rs => fst rs = Normal apology)
       (GeminiText.generateChatResponse history st).
Proof.
  unfold GeminiText.generateChatResponse. split.
  - apply always_try_catch. step.
    eapply always_bind_normally with (P := fun _ _ => True).
    + destruct (Heap.filter_refs _ _ _) as [| first [| ? ?]]; try done.
      destruct (Heap.objects st !! first) as [m |]; [| done].
      by case_bool_decide.
    + intros _ st' _. step. step. intros [e | response] _; simpl; [done |].
      step. by destruct (response_text response).
  - apply always_try_catch. step.
    eapply always_bind_normally with (P := fun _ _ => True).
    + destruct (Heap.filter_refs _ _ _) as [| first [| ? ?]]; try done.
      destruct (Heap.objects st !! first) as [m |]; [| done].
      by case_bool_decide.
    + intros _ st' _. step. step. intros [e | response] Hf; simpl in *; [done |].
      step. by destruct (response_text response).
Qed.
End Wrappers.

(** C6.  When the model replies with the text [raw], [extractUrlFromPrompt]
    makes that one request and returns: absence when the reply (as sent, or
    trimmed) is the sentinel; otherwise the normalised form of the trimmed
    reply when it parses as a URL; otherwise, when the trimmed reply does not
    start with [http://] or [https://], the result of parsing it once more
    behind [https://], absence included; and absence when it does start with
    one of the two. *)
Theorem extract_url_outcome `{RT : Runtime} {S} (prompt : jsstring) (s : S)
    (response : GenerateContentResponse) (raw : jsstring) :
  response_text response = inr raw ->
  exists v,
    run (GeminiText.extractUrlFromPrompt prompt s) [RGenerate (inr response)]
    = Some ((Normal v, s),
            [GenerateContent false
               [mkContent (str "user") GeminiText.extract_systemPrompt;
                mkContent (str "user") prompt]
               (mkConfig 1 100)],
            [])
    /\ (raw = sentinel \/ trim raw = sentinel -> v = None)
    /\ (trim raw <> sentinel ->
        forall href, URL_href (trim raw) = Some href -> v = Some href)
    /\ (trim raw <> sentinel -> URL_href (trim raw) = None ->
        has_scheme (trim raw) = false -> v = URL_href (str "https://" ++ trim raw))
    /\ (trim raw <> sentinel -> URL_href (trim raw) = None ->
        has_scheme (trim raw) = true -> v = None).
Proof.
  intros Htext.
  assert (trim sentinel = sentinel) as Htrim by (by vm_compute).
  unfold GeminiText.extractUrlFromPrompt, new_URL. exec. rewrite Htext. simpl.
  fold sentinel. unfold has_scheme.
  assert (forall v : option jsstring, raw = sentinel \/ trim raw = sentinel ->
                                      trim raw <> sentinel -> v = None) as Hno.
  { intros v [-> | ?] Hne; [by rewrite Htrim in Hne | done]. }
  case_bool_decide as Hs; simpl.
  { eexists. split; [reflexivity |]. repeat split; by intros. }
  destruct (URL_href (trim raw)) as [href |] eqn:Hurl; simpl.
  { eexists. split; [reflexivity |]. repeat split; try done.
    intros Hor. by apply Hno. }
  destruct (startsWith (trim raw) (str "http://")) eqn:H1;
    destruct (startsWith (trim raw) (str "https://")) eqn:H2; simpl;
    try (eexists; split; [reflexivity |]; repeat split; try done;
         intros Hor; by apply Hno).
  destruct (URL_href (_ :: _)) as [href |] eqn:Hurl2; simpl;
    (eexists; split; [reflexivity |]; repeat split; try done;
     first [by (intros Hor; apply Hno) | intros _ _ _; exact (eq_sym Hurl2)]).
Qed.

(** A reply without a scheme and with white space around it. *)
Lemma extract_url_outcome_witness :
  run (GeminiText.extractUrlFromPrompt (RT := Demo.runtime) (S := unit)
         (str "take a screenshot of example.com") tt)
      [RGenerate (inr (mkGenResponse (inr (str " example.com" ++ nl)) (inr None)))]
  = Some ((Normal (Some (str "https://example.com")), tt),
          [GenerateContent false
             [mkContent (str "user") GeminiText.extract_systemPrompt;
              mkContent (str "user") (str "take a screenshot of example.com")]
             (mkConfig 1 100)],
          []).
Proof.
  destruct (extract_url_outcome (RT := Demo.runtime) (S := unit)
              (str "take a screenshot of example.com") tt
              (mkGenResponse (inr (str " example.com" ++ nl)) (inr None)) (str " example.com" ++ nl) eq_refl) as (v & Hrun & _ & _ & Hretry & _).
  rewrite Hrun. rewrite Hretry; [reflexivity | by vm_compute | by vm_compute | by vm_compute].
Defined.

(** C7.  Each wrapper returns to its caller whatever the outside world
    answers, and when the Gemini call fails it returns its default: absence
    for the URL extraction, [false] for the intent detection, the apology
    (without a function call) for the chat response, in both revisions of
    the latter. *)
Theorem gemini_wrappers_never_throw `{RT : Runtime} :
  (forall S (prompt : jsstring) (s : S),
     always any_answer returns (GeminiText.extractUrlFromPrompt prompt s)
     /\ always llm_fails (fun rs => rs = (Normal None, s))
          (GeminiText.extractUrlFromPrompt prompt s))
  /\ (forall S (message : jsstring) (s : S),
        always any_answer returns (GeminiText.detectScreenshotIntent message s)
        /\ always llm_fails (fun rs => rs = (Normal false, s))
             (GeminiText.detectScreenshotIntent message s))
  /\ (forall S (history : list ChatMessage) (s : S),
        always any_answer returns (GeminiTools.generateChatResponse history s)
        /\ always llm_fails (fun rs => rs = (Normal (mkResult apology None), s))
             (GeminiTools.generateChatResponse history s))
  /\ (forall (history : list Heap.ref) (st : Heap.State),
        always any_answer returns (GeminiText.generateChatResponse history st)
        /\ always llm_fails (fun rs => fst rs = Normal apology)
             (GeminiText.generateChatResponse history st)).
Proof.
  repeat split; first [apply extract_always | apply detect_always
                      | apply generate_tools_fails | apply generate_text_always].
Qed.

(** ** The two revisions of the chat route *)

(** C5, at the turn that shows the defect.  In the two-call revision, the first
    turn of a conversation that is not a screenshot request appends the user
    message with the content the user sent and then, through the array
    [generateChatResponse] filtered out of the session's, assigns to the
    content of that same object: the session ends up holding the context
    preamble followed by the text, not the text.  The function-calling
    revision, at the same request, keeps the text. *)
Theorem first_user_message_rewritten :
  (exists st calls,
      run (ChatTwoCall.POST (RT := Demo.runtime) hello_request (Heap.mkState [] ∅))
          hello_script
      = Some ((Normal (json (Turn (str "u1") (plain assistant (str "Hi!") 4) Null false)),
               st), calls, [])
      /\ stored_messages st (str "u1")
         = [plain user (GeminiText.with_context (str "hello")) 3;
            plain assistant (str "Hi!") 4]
      /\ GeminiText.with_context (str "hello") <> str "hello")
  /\ (exists store calls,
        run (Chat.POST (RT := Demo.runtime) hello_request ∅)
            (opening false (str "u1") 1 2 3
             ++ tools_answers (RT := Demo.runtime) (Chatted (str "Hi!")) 4)
        = Some ((Normal (json (Turn (str "u1") (plain assistant (str "Hi!") 4) Null false)),
                 store), calls, [])
        /\ messages <$> store !! str "u1"
           = Some [plain user (str "hello") 3; plain assistant (str "Hi!") 4]).
Proof.
  split.
  - eexists _, _. split; [by vm_compute |]. split; [by vm_compute |].
    by vm_compute.
  - eexists _, _. split; [by vm_compute |]. by vm_compute.
Qed.


Lemma run_app {A} (p : Prog A) (s1 s2 : list Reply) (a : A) (calls : list Call)
    (rest : list Reply) :
  run p s1 = Some (a, calls, rest) -> run p (s1 ++ s2) = Some (a, calls, rest ++ s2).
Proof.
  revert s1 calls. induction p as [x | c k IH]; intros s1 calls; simpl.
  - by intros [= -> <- <-].
  - destruct s1 as [| r s1]; [done |]. simpl.
    destruct (coerce c r) as [x |]; [| done].
    destruct (run (k x) s1) as [[[a' calls'] rest'] |] eqn:Hk; [| done].
    intros [= -> <- ->]. by rewrite (IH x s1 calls' Hk).
Qed.

Lemma run_pbind {A B} (p : Prog A) (f : A -> Prog B) (script : list Reply)
    (a : A) (c1 : list Call) (rest : list Reply) :
  run p script = Some (a, c1, rest) ->
  run (pbind p f) script
  = match run (f a) rest with
    | Some (b, c2, rest') => Some (b, c1 ++ c2, rest')
    | None => None
    end.
Proof.
  revert script c1. induction p as [x | c k IH]; intros script c1; simpl.
  - intros [= -> <- <-]. by destruct (run (f a) script) as [[[] ?] |].
  - destruct script as [| r script]; [done |].
    destruct (coerce c r) as [x |]; [| done].
    destruct (run (k x) script) as [[[a' c1'] rest'] |] eqn:Hk; [| done].
    intros [= -> <- ->]. rewrite (IH x script c1' Hk).
    by destruct (run (f a) rest) as [[[] ?] |].
Qed.

(** A computation that uses the first part of the script, followed by one
    that uses the rest. *)
Lemma runs_bind {S A B} (m : M S A) (f : A -> M S B) (s : S) (s1 s2 : list Reply)
    (a : A) (s' : S) (r : Completion B * S) :
  runs (m s) s1 (Normal a, s') -> runs (f a s') s2 r -> runs (bind m f s) (s1 ++ s2) r.
Proof.
  intros [c1 H1] [c2 H2]. exists (c1 ++ c2). unfold bind.
  rewrite (run_pbind _ _ _ _ _ _ (run_app _ _ s2 _ _ _ H1)). simpl. by rewrite H2.
Qed.

Lemma runs_try_catch {S A} (m : M S A) (h : thrown -> M S A) (s : S)
    (script : list Reply) (a : A) (s' : S) :
  runs (m s) script (Normal a, s') -> runs (try_catch m h s) script (Normal a, s').
Proof.
  intros [c1 H1]. exists (c1 ++ []). unfold try_catch.
  by rewrite (run_pbind _ _ _ _ _ _ H1).
Qed.

Lemma runs_try_catch_abrupt {S A} (m : M S A) (h : thrown -> M S A) (s : S)
    (s1 s2 : list Reply) (e : thrown) (s' : S) (r : Completion A * S) :
  runs (m s) s1 (Abrupt e, s') -> runs (h e s') s2 r ->
  runs (try_catch m h s) (s1 ++ s2) r.
Proof.
  intros [c1 H1] [c2 H2]. exists (c1 ++ c2). unfold try_catch.
  rewrite (run_pbind _ _ _ _ _ _ (run_app _ _ s2 _ _ _ H1)). simpl. by rewrite H2.
Qed.

Lemma runs_ret {A} (a : A) : runs (Ret a) [] a.
Proof. by exists []. Qed.

Lemma runs_bind_abrupt {S A B} (m : M S A) (f : A -> M S B) (s : S)
    (script : list Reply) (e : thrown) (s' : S) :
  runs (m s) script (Abrupt e, s') -> runs (bind m f s) script (Abrupt e, s').
Proof.
  intros [c1 H1]. exists (c1 ++ []). unfold bind.
  by rewrite (run_pbind _ _ _ _ _ _ H1).
Qed.

(** A step that makes no call. *)
Lemma runs_pure {S A B} (m : M S A) (f : A -> M S B) (s : S) (script : list Reply)
    (a : A) (s' : S) (r : Completion B * S) :
  m s = Ret (Normal a, s') -> runs (f a s') script r -> runs (bind m f s) script r.
Proof.
  intros Hm Hf. apply (runs_bind m f s [] script a s' r); [| done].
  rewrite Hm. apply runs_ret.
Qed.



Section Runs.
Context `{RT : Runtime}.





Lemma extract_runs_found {S} (message raw url : jsstring) (s : S) :
  trim raw <> sentinel -> URL_href (trim raw) = Some url ->
  runs (GeminiText.extractUrlFromPrompt message s) [text_reply raw] (Normal (Some url), s).
Proof.
  intros Hraw Hurl. eexists. unfold GeminiText.extractUrlFromPrompt, new_URL. exec.
  fold sentinel. rewrite bool_decide_eq_false_2 by done. simpl.
  rewrite Hurl. reflexivity.
Qed.



End Runs.


Section Runs2.
Context `{RT : Runtime}.




End Runs2.

Section Turns.
Context `{RT : Runtime}.





Section TwoCallTurn.
Context (st : Heap.State) (payload : JSON) (message : jsstring) (sessionId : value)
        (yes no none found : jsstring) (t4 : Date) (o : Outcome).
Hypothesis Hparse : MessageSchema_parse payload = inr (message, sessionId).
Hypothesis Hyes : toUpperCase (trim yes) = str "YES".
Hypothesis Hno : toUpperCase (trim no) <> str "YES".
Hypothesis Hnone : trim none = sentinel.
Hypothesis Hfound : forall said url transport r, o = Shot said url transport r ->
  url <> [] /\ trim found <> sentinel /\ URL_href (trim found) = Some url.



End TwoCallTurn.
End Turns.


(** ** The properties at concrete requests *)




(** The default each wrapper falls back on, at the runtime of the examples. *)
Lemma gemini_wrappers_never_throw_witness :
  always llm_fails (fun rs => rs = (Normal None, tt))
    (GeminiText.extractUrlFromPrompt (RT := Demo.runtime) (str "a screenshot of example.com") tt).
Proof.
  apply (proj1 (gemini_wrappers_never_throw (RT := Demo.runtime))).
Defined.

(* ===================================================================== *)
(** * Further properties *)
(* ===================================================================== *)

(** ** Calls, budgets and revisions of a program *)


Lemma every_call_pbind {A B} (P : Call -> Prop) (p : Prog A) (f : A -> Prog B) :
  every_call P p -> (forall a, every_call P (f a)) -> every_call P (pbind p f).
Proof.
  intros Hp Hf. induction p as [a | c k IH]; simpl in *; [apply Hf |].
  destruct Hp as [Hc Hk]. split; [done |]. intros x. apply IH, Hk.
Qed.

Lemma every_call_bind {S A B} (P : Call -> Prop) (m : M S A) (f : A -> M S B) (s : S) :
  every_call P (m s) -> (forall a s', every_call P (f a s')) -> every_call P (bind m f s).
Proof.
  intros Hm Hf. apply every_call_pbind; [done |]. by intros [[a | e] s'].
Qed.

Lemma every_call_try_catch {S A} (P : Call -> Prop) (m : M S A) (h : thrown -> M S A)
    (s : S) :
  every_call P (m s) -> (forall e s', every_call P (h e s')) ->
  every_call P (try_catch m h s).
Proof.
  intros Hm Hh. apply every_call_pbind; [done |]. by intros [[a | e] s'].
Qed.

Lemma every_call_mono {A} (P Q : Call -> Prop) (p : Prog A) :
  (forall c, P c -> Q c) -> every_call P p -> every_call Q p.
Proof.
  intros HPQ. induction p as [a | c k IH]; simpl; [done |].
  intros [Hc Hk]. split; [by apply HPQ |]. intros x. apply IH, Hk.
Qed.

(** What holds of every call holds of the calls of a scripted run. *)
Lemma every_call_run {A} (P : Call -> Prop) (p : Prog A) :
  every_call P p ->
  forall script a calls rest, run p script = Some (a, calls, rest) -> Forall P calls.
Proof.
  induction p as [a | c k IH]; simpl; intros Hp script a' calls rest.
  - by intros [= _ <- _].
  - destruct script as [| r script]; [done |].
    destruct (coerce c r) as [x |]; [| done].
    destruct (run (k x) script) as [[[a'' calls'] rest'] |] eqn:Hrun; [| done].
    intros [= _ <- _]. destruct Hp as [Hc Hk]. constructor; [done |].
    eapply IH; [apply Hk | exact Hrun].
Qed.

Lemma at_most_mono {A} (sel : Call -> bool) (n m : nat) (p : Prog A) :
  (n <= m)%nat -> at_most sel n p -> at_most sel m p.
Proof.
  revert n m. induction p as [a | c k IH]; simpl; intros n m Hnm; [done |].
  destruct (sel c).
  - destruct n as [| n]; [done |]. destruct m as [| m]; [lia |].
    intros Hk x. eapply IH; [| apply Hk]. lia.
  - intros Hk x. eapply IH; [| apply Hk]. lia.
Qed.

Lemma at_most_pbind {A B} (sel : Call -> bool) (a b : nat) (p : Prog A)
    (f : A -> Prog B) :
  at_most sel a p -> (forall x, at_most sel b (f x)) -> at_most sel (a + b) (pbind p f).
Proof.
  revert a. induction p as [x | c k IH]; simpl; intros a Hp Hf.
  - eapply at_most_mono; [| apply Hf]. lia.
  - destruct (sel c).
    + destruct a as [| a]; [done |]. simpl. intros x. by apply IH.
    + intros x. by apply IH.
Qed.

Lemma at_most_bind {S A B} (sel : Call -> bool) (a b n : nat) (m : M S A)
    (f : A -> M S B) (s : S) :
  at_most sel a (m s) -> (forall x s', at_most sel b (f x s')) -> (a + b <= n)%nat ->
  at_most sel n (bind m f s).
Proof.
  intros Hm Hf Hn. eapply at_most_mono; [exact Hn |].
  apply at_most_pbind; [done |]. by intros [[x | e] s'].
Qed.

Lemma at_most_try_catch {S A} (sel : Call -> bool) (a b n : nat) (m : M S A)
    (h : thrown -> M S A) (s : S) :
  at_most sel a (m s) -> (forall e s', at_most sel b (h e s')) -> (a + b <= n)%nat ->
  at_most sel n (try_catch m h s).
Proof.
  intros Hm Hh Hn. eapply at_most_mono; [exact Hn |].
  apply at_most_pbind; [done |]. by intros [[x | e] s'].
Qed.

(** The bound holds of the calls of a scripted run. *)
Lemma at_most_run {A} (sel : Call -> bool) (n : nat) (p : Prog A) :
  at_most sel n p ->
  forall script a calls rest, run p script = Some (a, calls, rest) ->
  (length (filter (fun c => Is_true (sel c)) calls) <= n)%nat.
Proof.
  revert n. induction p as [a | c k IH]; simpl; intros n Hp script a' calls rest.
  - intros [= _ <- _]. simpl. lia.
  - destruct script as [| r script]; [done |].
    destruct (coerce c r) as [x |]; [| done].
    destruct (run (k x) script) as [[[a'' calls'] rest'] |] eqn:Hrun; [| done].
    intros [= _ <- _].
    destruct (sel c) eqn:Hc.
    + destruct n as [| n]; [done |].
      specialize (IH x n (Hp x) script a'' calls' rest' Hrun).
      rewrite filter_cons_True by (by apply Is_true_true). simpl. lia.
    + specialize (IH x n (Hp x) script a'' calls' rest' Hrun).
      rewrite filter_cons_False by (by apply Is_true_false). done.
Qed.


Lemma within_bind {S A B} (g1 f1 s1 g2 f2 s2 g f s : nat) (m : M S A)
    (k : A -> M S B) (st : S) :
  within g1 f1 s1 (m st) -> (forall a st', within g2 f2 s2 (k a st')) ->
  (g1 + g2 <= g)%nat -> (f1 + f2 <= f)%nat -> (s1 + s2 <= s)%nat ->
  within g f s (bind m k st).
Proof.
  intros (Hg & Hf & Hs) Hk ? ? ?.
  repeat split; eapply at_most_bind; try done; intros a st'; apply Hk.
Qed.

Lemma within_try_catch {S A} (g1 f1 s1 g2 f2 s2 g f s : nat) (m : M S A)
    (h : thrown -> M S A) (st : S) :
  within g1 f1 s1 (m st) -> (forall e st', within g2 f2 s2 (h e st')) ->
  (g1 + g2 <= g)%nat -> (f1 + f2 <= f)%nat -> (s1 + s2 <= s)%nat ->
  within g f s (try_catch m h st).
Proof.
  intros (Hg & Hf & Hs) Hk ? ? ?.
  repeat split; eapply at_most_try_catch; try done; intros a st'; apply Hk.
Qed.

Lemma within_mono {A} (g1 f1 s1 g f s : nat) (p : Prog A) :
  within g1 f1 s1 p -> (g1 <= g)%nat -> (f1 <= f)%nat -> (s1 <= s)%nat -> within g f s p.
Proof.
  intros (Hg & Hf & Hs) ? ? ?. repeat split; by eapply at_most_mono.
Qed.


Lemma every_call_bind_post {S A B} (P : Call -> Prop) (Q : A -> S -> Prop)
    (m : M S A) (f : A -> M S B) (s : S) :
  every_call P (m s) ->
  always any_answer (fun rs => match rs with
                               | (Normal a, s') => Q a s'
                               | (Abrupt _, _) => True
                               end) (m s) ->
  (forall a s', Q a s' -> every_call P (f a s')) ->
  every_call P (bind m f s).
Proof.
  intros Hm Hq Hf. unfold bind.
  induction (m s) as [[[a | e] s'] | c k IH]; simpl in *; [by apply Hf | done |].
  destruct Hm as [Hc Hk]. split; [done |]. intros x. apply IH; [apply Hk | by apply Hq].
Qed.




Lemma related_refl {A} (ok : forall c, Answer c -> Prop) (R : A -> A -> Prop) (p : Prog A) :
  (forall a, R a a) -> related ok R p p.
Proof.
  intros HR. induction p as [a | c k IH]; constructor; [apply HR |].
  intros x _. apply IH.
Qed.

Lemma related_pbind {A A' B B'} (ok : forall c, Answer c -> Prop)
    (R1 : A -> A' -> Prop) (R : B -> B' -> Prop) (p : Prog A) (q : Prog A')
    (f : A -> Prog B) (g : A' -> Prog B') :
  related ok R1 p q -> (forall a b, R1 a b -> related ok R (f a) (g b)) ->
  related ok R (pbind p f) (pbind q g).
Proof.
  intros Hpq Hfg. induction Hpq as [a b Hab | c k k' Hk IH]; simpl; [by apply Hfg |].
  constructor. intros x Hx. by apply IH.
Qed.

(** The same first part, of whose results [P] holds, followed by parts that
    are related on those results. *)
Lemma related_pbind_same {A B B'} (ok : forall c, Answer c -> Prop) (P : A -> Prop)
    (R : B -> B' -> Prop) (p : Prog A) (f : A -> Prog B) (g : A -> Prog B') :
  always ok P p -> (forall a, P a -> related ok R (f a) (g a)) ->
  related ok R (pbind p f) (pbind p g).
Proof.
  intros Hp Hfg. induction p as [a | c k IH]; simpl in *; [by apply Hfg |].
  constructor. intros x Hx. by apply IH, Hp.
Qed.

(** Programs that agree give the same result on every admissible script. *)
Lemma agree_run {A} (ok : forall c, Answer c -> Prop) (p q : Prog A) :
  agree ok p q -> forall script, admissible ok script -> run p script = run q script.
Proof.
  intros Hpq. induction Hpq as [a b -> | c k k' Hk IH]; intros script Hs; simpl; [done |].
  destruct script as [| reply script]; [done |].
  apply Forall_cons in Hs as [Hr Hs].
  destruct (coerce c reply) as [x |] eqn:Hc; [| done].
  by rewrite (IH x (Hr c x Hc) script Hs).
Qed.

Lemma related_same {A} (ok : forall c, Answer c -> Prop) (P : A -> Prop)
    (R : A -> A -> Prop) (p : Prog A) :
  always ok P p -> (forall a, P a -> R a a) -> related ok R p p.
Proof.
  intros Hp HR. induction p as [a | c k IH]; simpl in *; constructor; [by apply HR |].
  intros x Hx. by apply IH, Hp.
Qed.

Lemma related_bind_same {S A B} (ok : forall c, Answer c -> Prop)
    (P : A -> S -> Prop) (R : Completion B * S -> Completion B * S -> Prop)
    (m : M S A) (f g : A -> M S B) (s : S) :
  always ok (normally P) (m s) ->
  (forall a s', P a s' -> related ok R (f a s') (g a s')) ->
  related ok R (bind m f s) (bind m g s).
Proof.
  intros Hm Hfg. unfold bind. eapply related_pbind_same; [exact Hm |].
  intros [[a | e] s'] HP; simpl in HP; [by apply Hfg | done].
Qed.



(** One step of a walk over the calls of a handler. *)
Ltac walk :=
  repeat match goal with
         | |- every_call _ (try_catch _ _ _) => apply every_call_try_catch; [| intros ? ?]
         | |- every_call _ (bind _ _ _) => apply every_call_bind; [| intros ? ?]
         end;
  try done.

Lemma RequestSchema_parse_valid `{RT : Runtime} (payload : JSON) (url : jsstring) :
  Screenshot.RequestSchema_parse payload = inr url -> zod_url url = true.
Proof.
  unfold Screenshot.RequestSchema_parse.
  destruct payload as [| | | | | fields]; try done.
  destruct (prop (str "url") fields) as [[| | | s | |] |]; try done.
  destruct (zod_url s) eqn:Hz; [| done]. by intros [= <-].
Qed.

Section Spawns.
Context `{RT : Runtime}.

Lemma screenshot_post_spawns {S} (req_json : thrown + JSON) (s : S) :
  every_call valid_spawn (Screenshot.POST req_json s).
Proof.
  unfold Screenshot.POST. exec.
  destruct req_json as [e | payload]; simpl; [done |].
  destruct (Screenshot.RequestSchema_parse payload) as [e | url] eqn:Hp; simpl; [done |].
  repeat split; try done. exists url. split; [done |]. by eapply RequestSchema_parse_valid.
Qed.

Lemma fetch_screenshot_spawns {S} (sent : JSON) (s : S) :
  every_call valid_spawn (fetch_screenshot sent s).
Proof.
  unfold fetch_screenshot. apply every_call_bind.
  - simpl. done.
  - intros [e |] s'; [done |]. apply every_call_bind; [apply screenshot_post_spawns | done].
Qed.

Lemma generate_tools_spawns {S} (history : list ChatMessage) (s : S) :
  every_call valid_spawn (GeminiTools.generateChatResponse history s).
Proof.
  unfold GeminiTools.generateChatResponse. walk.
  - destruct a; done.
  - destruct (response_text a0); done.
  - destruct (response_functionCalls a0) as [? | ?]; done.
  - destruct a2 as [[|]|]; done.
  - destruct a2; done.
Qed.

Lemma compose_spawns (response : FunctionCallResult) (extractedUrl : value)
    (intent : bool) (store : gmap jsstring ChatSession) :
  every_call valid_spawn (Chat.compose response extractedUrl intent store).
Proof.
  unfold Chat.compose.
  destruct (intent && truthy_value extractedUrl).
  - walk; [apply fetch_screenshot_spawns | by destruct a].
  - destruct intent; walk.
Qed.

Lemma chat_post_spawns (req_json : thrown + JSON) (store : gmap jsstring ChatSession) :
  every_call valid_spawn (Chat.POST req_json store).
Proof.
  unfold Chat.POST. walk.
  - by destruct req_json.
  - by destruct (MessageSchema_parse a).
  - destruct (usable (snd a0) ≫= _) as [[key old] |]; walk.
  - apply generate_tools_spawns.
  - apply compose_spawns.
Qed.

End Spawns.

Section SpawnsTwoCall.
Context `{RT : Runtime}.

Lemma extract_spawns {S} (prompt : jsstring) (s : S) :
  every_call valid_spawn (GeminiText.extractUrlFromPrompt prompt s).
Proof.
  unfold GeminiText.extractUrlFromPrompt, new_URL. exec. split; [done |].
  intros [e | response]; simpl; [done |].
  destruct (response_text response) as [e | raw]; simpl; [done |].
  case_bool_decide; simpl; [done |].
  destruct (URL_href (trim raw)); simpl; [done |].
  destruct (negb _ && negb _); simpl; [| done].
  by destruct (URL_href _).
Qed.

Lemma detect_spawns {S} (message : jsstring) (s : S) :
  every_call valid_spawn (GeminiText.detectScreenshotIntent message s).
Proof.
  unfold GeminiText.detectScreenshotIntent. exec. split; [done |].
  intros [e | response]; simpl; [done |].
  by destruct (response_text response).
Qed.

Lemma generate_text_spawns (history : list Heap.ref) (st : Heap.State) :
  every_call valid_spawn (GeminiText.generateChatResponse history st).
Proof.
  unfold GeminiText.generateChatResponse. walk.
  - destruct (Heap.filter_refs _ _ _) as [| first [| ? ?]]; try done.
    destruct (Heap.objects a !! first) as [m |]; [| done].
    by case_bool_decide.
  - by destruct a2.
  - by destruct (response_text a3).
Qed.

Lemma branch_spawns (message : jsstring) (st : Heap.State) :
  every_call valid_spawn (ChatTwoCall.screenshot_branch message st).
Proof.
  unfold ChatTwoCall.screenshot_branch. walk; [apply extract_spawns |].
  destruct (a ≫= _) as [url |]; walk.
  - apply fetch_screenshot_spawns.
  - destruct a0; walk.
Qed.

Lemma two_call_post_spawns (req_json : thrown + JSON) (st : Heap.State) :
  every_call valid_spawn (ChatTwoCall.POST req_json st).
Proof.
  unfold ChatTwoCall.POST. walk.
  - by destruct req_json.
  - by destruct (MessageSchema_parse a).
  - destruct (usable (snd a0) ≫= _) as [[key old] |]; walk.
  - apply detect_spawns.
  - destruct a6; walk; [apply branch_spawns | apply generate_text_spawns].
Qed.

Lemma ai_post_spawns {S} (req_json : thrown + JSON) (s : S) :
  every_call valid_spawn (AiScreenshot.POST req_json s).
Proof.
  unfold AiScreenshot.POST. walk.
  - by destruct req_json.
  - by destruct (AiScreenshot.RequestSchema_parse a).
  - destruct a as [response | prompt]; [done |]. walk; [apply extract_spawns |].
    destruct (a ≫= _) as [url |]; [| done]. walk.
    + unfold AiScreenshot.fetch_screenshot_response. walk.
      destruct a0; [done |]. apply screenshot_post_spawns.
    + destruct (body a0); [| done]. by destruct (AiScreenshot.ok a0).
Qed.

End SpawnsTwoCall.

(** X1.  Whatever the request and whatever the outside world answers, a route
    starts a child process only as [node <script> <url>], with a URL that the
    schema of the screenshot route has accepted.  This holds of the screenshot
    route, of both revisions of the chat route and of the route that extracts
    the URL with Gemini. *)
Theorem helper_started_with_accepted_url `{RT : Runtime} :
  (forall S (req_json : thrown + JSON) (s : S),
     every_call valid_spawn (Screenshot.POST req_json s))
  /\ (forall req_json store, every_call valid_spawn (Chat.POST req_json store))
  /\ (forall req_json st, every_call valid_spawn (ChatTwoCall.POST req_json st))
  /\ (forall S (req_json : thrown + JSON) (s : S),
        every_call valid_spawn (AiScreenshot.POST req_json s)).
Proof.
  split; [intros; apply screenshot_post_spawns |].
  split; [intros; apply chat_post_spawns |].
  split; [intros; apply two_call_post_spawns |].
  intros; apply ai_post_spawns.
Qed.

(** ** Budgets *)

Ltac free :=
  match goal with
  | |- within ?g ?f ?s (bind _ _ _) =>
      eapply (within_bind 0 0 0 g f s g f s); [| intros ? ? | lia | lia | lia]
  | |- within ?g ?f ?s (try_catch _ _ _) =>
      eapply (within_try_catch g f s 0 0 0 g f s); [| intros ? ? | lia | lia | lia]
  end.

Ltac leaf := unfold within; simpl; done.

Section Budgets.
Context `{RT : Runtime}.

Lemma screenshot_post_within {S} (req_json : thrown + JSON) (s : S) :
  within 0 0 1 (Screenshot.POST req_json s).
Proof.
  unfold Screenshot.POST. free.
  - free; [| leaf]. free; [by destruct req_json |].
    free; [by destruct (Screenshot.RequestSchema_parse a) | leaf].
  - destruct a as [response | url]; [leaf |].
    eapply (within_bind 0 0 1 0 0 0); try lia; [leaf | intros; leaf].
Qed.

Lemma fetch_screenshot_within {S} (sent : JSON) (s : S) :
  within 0 1 1 (fetch_screenshot sent s).
Proof.
  unfold fetch_screenshot.
  eapply (within_bind 0 1 0 0 0 1); try lia; [leaf |].
  intros [e |] s'; [leaf |].
  eapply (within_bind 0 0 1 0 0 0); try lia; [apply screenshot_post_within | intros; leaf].
Qed.

Lemma generate_tools_within {S} (history : list ChatMessage) (s : S) :
  within 1 0 0 (GeminiTools.generateChatResponse history s).
Proof.
  unfold GeminiTools.generateChatResponse. free; [| leaf].
  eapply (within_bind 1 0 0 0 0 0); try lia; [leaf |]. intros result s'.
  free; [by destruct result |]. free; [by destruct (response_text a) |].
  free.
  - free; [| leaf]. free; [by destruct (response_functionCalls a) |].
    destruct a1 as [[|]|]; leaf.
  - destruct a1; leaf.
Qed.

Lemma compose_within (response : FunctionCallResult) (extractedUrl : value)
    (intent : bool) (store : gmap jsstring ChatSession) :
  within 0 1 1 (Chat.compose response extractedUrl intent store).
Proof.
  unfold Chat.compose.
  destruct (intent && truthy_value extractedUrl).
  - free.
    + eapply (within_bind 0 1 1 0 0 0); try lia; [apply fetch_screenshot_within |].
      intros [d | err] s'; (free; [leaf | leaf]).
    + free; [leaf | leaf].
  - destruct intent; (free; [leaf | leaf]).
Qed.

Lemma chat_post_within (req_json : thrown + JSON) (store : gmap jsstring ChatSession) :
  within 1 1 1 (Chat.POST req_json store).
Proof.
  unfold Chat.POST. free; [| leaf].
  free; [by destruct req_json |].
  free; [by destruct (MessageSchema_parse a) |].
  free; [leaf |].
  free.
  { destruct (usable (snd a0) ≫= _) as [[key old] |].
    - free; [leaf |]. free; [leaf | leaf].
    - free; [leaf |]. free; [leaf |]. free; [leaf |]. free; [leaf | leaf]. }
  free; [leaf |]. free; [leaf |].
  eapply (within_bind 1 0 0 0 1 1); try lia; [apply generate_tools_within |].
  intros response s'.
  eapply (within_bind 0 1 1 0 0 0); try lia; [apply compose_within |].
  intros a' s''. free; [leaf | leaf].
Qed.

End Budgets.

Section BudgetsTwoCall.
Context `{RT : Runtime}.

Lemma extract_within {S} (prompt : jsstring) (s : S) :
  within 1 0 0 (GeminiText.extractUrlFromPrompt prompt s).
Proof.
  unfold GeminiText.extractUrlFromPrompt, new_URL, within. exec.
  repeat split; intros [e | response]; simpl; try done;
    (destruct (response_text response) as [e | raw]; simpl; [done |];
     case_bool_decide; simpl; [done |];
     destruct (URL_href (trim raw)); simpl; [done |];
     destruct (negb _ && negb _); simpl; [| done];
     by destruct (URL_href _)).
Qed.

Lemma detect_within {S} (message : jsstring) (s : S) :
  within 1 0 0 (GeminiText.detectScreenshotIntent message s).
Proof.
  unfold GeminiText.detectScreenshotIntent, within. exec.
  repeat split; intros [e | response]; simpl; try done;
    by destruct (response_text response).
Qed.

Lemma generate_text_within (history : list Heap.ref) (st : Heap.State) :
  within 1 0 0 (GeminiText.generateChatResponse history st).
Proof.
  unfold GeminiText.generateChatResponse. free; [| leaf].
  free; [leaf |]. free.
  { destruct (Heap.filter_refs _ _ _) as [| first [| ? ?]]; try leaf.
    destruct (Heap.objects a !! first) as [m |]; [| leaf].
    case_bool_decide; leaf. }
  free; [leaf |].
  eapply (within_bind 1 0 0 0 0 0); try lia; [leaf |]. intros result s'.
  free; [by destruct result |]. by destruct (response_text a2).
Qed.

Lemma branch_within (message : jsstring) (st : Heap.State) :
  within 1 1 1 (ChatTwoCall.screenshot_branch message st).
Proof.
  unfold ChatTwoCall.screenshot_branch.
  eapply (within_bind 1 0 0 0 1 1); try lia; [apply extract_within |].
  intros extracted s'.
  destruct (extracted ≫= _) as [url |].
  - eapply (within_bind 0 1 1 0 0 0); try lia; [| intros; leaf].
    eapply (within_try_catch 0 1 1 0 0 0); try lia.
    + eapply (within_bind 0 1 1 0 0 0); try lia; [apply fetch_screenshot_within |].
      intros [d | err] s''; (free; [leaf | leaf]).
    + intros e s''. free; [leaf | leaf].
  - free; [leaf | leaf].
Qed.

Lemma two_call_post_within (req_json : thrown + JSON) (st : Heap.State) :
  within 2 1 1 (ChatTwoCall.POST req_json st).
Proof.
  unfold ChatTwoCall.POST. free; [| leaf].
  free; [by destruct req_json |].
  free; [by destruct (MessageSchema_parse a) |].
  free; [leaf |].
  free.
  { destruct (usable (snd a0) ≫= _) as [[key old] |].
    - free; [leaf |]. free; [leaf | leaf].
    - free; [leaf |]. free; [leaf |]. free; [leaf |]. free; [leaf | leaf]. }
  free; [leaf |]. free; [leaf |]. free; [leaf |].
  eapply (within_bind 1 0 0 1 1 1); try lia; [apply detect_within |].
  intros intent s'.
  eapply (within_bind 1 1 1 0 0 0); try lia.
  - destruct intent; [apply branch_within |].
    eapply (within_bind 1 0 0 0 0 0); try lia; [apply generate_text_within |].
    intros; free; [leaf | leaf].
  - intros composed s''. free; [leaf |]. free; [leaf | leaf].
Qed.

Lemma ai_post_within {S} (req_json : thrown + JSON) (s : S) :
  within 1 1 1 (AiScreenshot.POST req_json s).
Proof.
  unfold AiScreenshot.POST. free.
  - free; [| leaf]. free; [by destruct req_json |].
    free; [by destruct (AiScreenshot.RequestSchema_parse a) | leaf].
  - destruct a as [response | prompt]; [leaf |]. free; [| leaf].
    eapply (within_bind 1 0 0 0 1 1); try lia; [apply extract_within |].
    intros extracted s''.
    destruct (extracted ≫= _) as [url |]; [| leaf].
    eapply (within_bind 0 1 1 0 0 0); try lia.
    + unfold AiScreenshot.fetch_screenshot_response.
      eapply (within_bind 0 1 0 0 0 1); try lia; [leaf |].
      intros [e |] s3; [leaf |]. apply screenshot_post_within.
    + intros resp s3. destruct (body resp); [| leaf]. destruct (AiScreenshot.ok resp); leaf.
Qed.

End BudgetsTwoCall.

(** X2.  On every path through a request, whatever the outside world answers:
    the screenshot route starts at most one child process and asks nothing of
    Gemini; a turn of the function-calling chat route makes at most one
    request to Gemini, one [fetch] and one child process; a turn of the
    two-call revision at most two requests to Gemini, one [fetch] and one
    child process; the route that extracts the URL with Gemini at most one of
    each. *)
Theorem routes_call_budget `{RT : Runtime} :
  (forall S (req_json : thrown + JSON) (s : S),
     within 0 0 1 (Screenshot.POST req_json s))
  /\ (forall req_json store, within 1 1 1 (Chat.POST req_json store))
  /\ (forall req_json st, within 2 1 1 (ChatTwoCall.POST req_json st))
  /\ (forall S (req_json : thrown + JSON) (s : S),
        within 1 1 1 (AiScreenshot.POST req_json s)).
Proof.
  split; [intros; apply screenshot_post_within |].
  split; [intros; apply chat_post_within |].
  split; [intros; apply two_call_post_within |].
  intros; apply ai_post_within.
Qed.

(** ** What is sent to Gemini *)


Lemma generate_tools_request `{RT : Runtime} {S} (P : Call -> Prop)
    (history : list ChatMessage) (s : S) :
  P (GenerateContent true
       (GeminiTools.toGemini
          <$> filter (fun msg => role msg = user \/ role msg = assistant) history)
       (mkConfig 7 800)) ->
  every_call P (GeminiTools.generateChatResponse history s).
Proof.
  intros HP. unfold GeminiTools.generateChatResponse. exec. split; [done |].
  intros [e | response]; simpl; [done |].
  destruct (response_text response) as [e | responseText]; simpl; [done |].
  destruct (response_functionCalls response) as [e | [[| fc l] |]]; simpl; done.
Qed.

Lemma at_most_zero {A} (sel : Call -> bool) (p : Prog A) :
  at_most sel 0 p -> every_call (fun c => sel c = false) p.
Proof.
  induction p as [a | c k IH]; simpl; [done |].
  destruct (sel c); [done |]. intros Hk. split; [done |]. intros x. apply IH, Hk.
Qed.

(** X3.  For a request the schema accepts, every request a turn of the
    function-calling chat route makes to Gemini declares the tools, has the
    temperature 0.7 and at most 800 output tokens, and carries the whole
    conversation: one entry for each user or assistant message the session
    held before the turn, in order (none for a new session), followed by the
    entry of the new user message. *)
Theorem chat_request_carries_history `{RT : Runtime} (store : gmap jsstring ChatSession)
    (payload : JSON) (message : jsstring) (sessionId : value) :
  MessageSchema_parse payload = inr (message, sessionId) ->
  every_call (chat_request store sessionId message) (Chat.POST (inr payload) store).
Proof.
  intros Hparse. unfold Chat.POST. apply every_call_try_catch; [| done].
  eapply (every_call_bind_post _ (fun body s' => body = payload /\ s' = store));
    [done | done |].
  intros body s0 [-> ->].
  eapply (every_call_bind_post _ (fun v s' => v = (message, sessionId) /\ s' = store));
    [by rewrite Hparse | by rewrite Hparse |].
  intros v s0 [-> ->]. cbn [fst snd].
  eapply (every_call_bind_post _ (fun cs s' => cs = store /\ s' = store)); [done | done |].
  intros cs s0 [-> ->].
  eapply (every_call_bind_post _
            (fun resolved _ => messages (snd resolved) = history_of store sessionId)).
  { destruct (usable sessionId ≫= _) as [[key old] |]; exec; done. }
  { unfold history_of.
    destruct (usable sessionId) as [k |]; simpl; [destruct (store !! k) as [old |]; simpl |];
      exec; done. }
  intros resolved s0 Hhistory.
  apply every_call_bind; [done |]. intros now s1.
  apply every_call_bind; [done |]. intros _ s2.
  apply every_call_bind.
  { apply generate_tools_request. repeat split. simpl.
    rewrite Hhistory, filter_app, fmap_app. by f_equal. }
  intros response s3.
  apply every_call_bind.
  { eapply every_call_mono; [| apply at_most_zero, compose_within].
    by intros [| | | |]. }
  done.
Qed.

Section Fields.
Context `{RT : Runtime} (ok : forall c, Answer c -> Prop).

Lemma compose_fields (response : FunctionCallResult)
    (store : gmap jsstring ChatSession) :
  always ok
    (normally (fun a _ =>
       consistent a (Chat.url_argument response) (Chat.wants_screenshot response)))
    (Chat.compose response (Chat.url_argument response) (Chat.wants_screenshot response)
                  store).
Proof.
  unfold Chat.compose, consistent, Chat.url_argument, Chat.wants_screenshot.
  destruct (functionCall response) as [fc |]; simpl.
  2: { intros now _. simpl. repeat split; try done. }
  case_bool_decide as Hname; simpl.
  2: { intros now _. simpl. repeat split; try done. }
  destruct (fc_args_url fc) as [| | url] eqn:Hurl; simpl.
  - intros now _. simpl. repeat split; try done.
  - intros now _. simpl. repeat split; try done.
  - destruct (truthy url) eqn:Ht.
    + unfold try_catch. apply always_pbind. unfold bind. apply always_pbind.
      eapply always_mono; [| apply (fetch_screenshot_always ok)].
      intros [[[d | err] | e] s'] [Hs Hd]; simpl in *; subst s'.
      * intros now _. simpl. try rewrite Ht. repeat split; try done.
        exists url. repeat split; try done. by apply truthy_nonempty.
      * intros now _. simpl. try rewrite Ht. repeat split; try done.
      * intros now _. simpl. try rewrite Ht. repeat split; try done.
    + intros now _. simpl. try rewrite Ht. repeat split; try done.
Qed.

(** X4.  The three parts of the answer of a successful turn go together:
    without the screenshot intent the extracted URL is [null] and the message
    has no screenshot; a message with a screenshot comes with the intent and
    names the URL of the answer, which is not empty; and the intent without a
    usable URL is answered with the fixed request for a valid URL. *)
Theorem turn_answer_consistent (store : gmap jsstring ChatSession) (req_json : thrown + JSON) :
  always ok
    (fun rs => forall sid a u i, fst rs = Normal (json (Turn sid a u i)) -> consistent a u i)
    (Chat.POST req_json store).
Proof.
  unfold Chat.POST. apply always_try_catch.
  destruct req_json as [e | payload]; [by exec |].
  destruct (MessageSchema_parse payload) as [e | [message sessionId]] eqn:Hparse.
  { exec. rewrite Hparse. by simpl. }
  step. step. rewrite Hparse. cbn [always await ret]. step.
  eapply always_bind_normally with (P := fun _ _ => True).
  { destruct (usable sessionId ≫= _) as [[key old] |]; by exec. }
  intros resolved s' _. step. intros now _. step.
  eapply always_bind_normally; [apply generate_tools_always |].
  intros response s'' _.
  eapply always_bind_normally; [apply compose_fields |].
  intros a s3 Ha. step. by intros sid a' u i [= _ <- <- <-].
Qed.

End Fields.





(** A step that makes no call. *)
Lemma always_pure {S A B} (ok : forall c, Answer c -> Prop)
    (Q : Completion B * S -> Prop) (m : M S A) (f : A -> M S B) (s s' : S) (a : A) :
  m s = Ret (Normal a, s') -> always ok Q (f a s') -> always ok Q (bind m f s).
Proof. intros Hm Hf. unfold bind. by rewrite Hm. Qed.

(** ** The status of the screenshot route *)

Lemma respond_status (r : ChildRun) :
  (status (respond r) = 200 \/ status (respond r) = 500)
  /\ (status (respond r) = 200 <-> Screenshot.success (body (respond r)) = true).
Proof.
  pose proof (respond_cases r) as Hc.
  destruct (spawn_error r); [rewrite Hc; split; [by right | done] |].
  case_bool_decide; [| rewrite Hc; split; [by right | done]].
  destruct (truthy (stdout_of r)); rewrite Hc; (split; [| done]); [by left | by right].
Qed.


(** X9.  The answer to a run of the child depends on its standard output
    only through the concatenation of the chunks: two runs with the same
    concatenated output, the same ['error'] event (or none) and the same exit
    code get the same status and the same success flag, the same response
    when it is a success, whatever was written to the standard error, and the
    same response in every case when the collected standard error is the
    same too. *)
Theorem respond_ignores_chunking (r r' : ChildRun) :
  stdout_of r = stdout_of r' ->
  spawn_error r = spawn_error r' ->
  close_code r = close_code r' ->
  status (respond r) = status (respond r')
  /\ Screenshot.success (body (respond r)) = Screenshot.success (body (respond r'))
  /\ (Screenshot.success (body (respond r)) = true -> respond r = respond r')
  /\ (stderr_of r = stderr_of r' -> respond r = respond r').
Proof.
  intros Hout Herr Hcode.
  pose proof (respond_cases r) as Hc. pose proof (respond_cases r') as Hc'.
  rewrite <- Herr, <- Hcode, <- Hout in Hc'.
  destruct (spawn_error r); [by rewrite Hc, Hc' |].
  case_bool_decide.
  - destruct (truthy (stdout_of r)); by rewrite Hc, Hc'.
  - rewrite Hc, Hc'. repeat split; try done. by intros ->.
Qed.

(** ** The route that extracts the URL with Gemini *)

Section Ai.
Context `{RT : Runtime}.

Lemma fetch_response_always {S} (sent : JSON) (s : S) :
  always any_answer
    (fun rs =>
       snd rs = s
       /\ forall resp, fst rs = Normal resp ->
            (forall d, body resp = Screenshot.Success d ->
                       d <> [] /\ AiScreenshot.ok resp = true))
    (AiScreenshot.fetch_screenshot_response sent s).
Proof.
  unfold AiScreenshot.fetch_screenshot_response. exec.
  intros [e |] _; simpl; [split; [done | by intros ? [=]] |].
  unfold Screenshot.POST. exec.
  destruct (Screenshot.RequestSchema_parse sent); simpl;
    [split; [done | by intros ? [= <-] ? [=]] |].
  intros r _. split; [done |]. intros resp [= <-] d Hd. fold (respond r) in *.
  split; [by eapply respond_success |].
  destruct (respond_status r) as [_ Hiff]. rewrite Hd in Hiff.
  unfold AiScreenshot.ok. by rewrite (proj2 Hiff).
Qed.

(** Whatever the outside world answers, the route answers with one of four
    responses and leaves the state alone: 400 for a request its schema does not
    accept, 400 when no URL came out of the prompt, 500 with a text that is not
    empty, or 200 with a payload and the URL, neither empty. *)
Lemma ai_post_always {S} (req_json : thrown + JSON) (s : S) :
  always any_answer
    (normally (fun resp s' =>
       s' = s
       /\ (resp = json_status (AiScreenshot.Failure AiScreenshot.invalid_body) 400
           /\ (forall payload prompt, req_json = inr payload ->
                 AiScreenshot.RequestSchema_parse payload <> inr prompt)
           \/ (exists payload prompt,
                 req_json = inr payload
                 /\ AiScreenshot.RequestSchema_parse payload = inr prompt)
              /\ (resp = json_status (AiScreenshot.Failure AiScreenshot.no_url) 400
                  \/ (exists e, e <> []
                        /\ resp = json_status (AiScreenshot.Failure e) 500)
                  \/ (exists d url, d <> [] /\ url <> []
                        /\ resp = json (AiScreenshot.Success d url))))))
    (AiScreenshot.POST req_json s).
Proof.
  unfold AiScreenshot.POST.
  destruct req_json as [e | payload].
  { exec. split; [done |]. by left. }
  destruct (AiScreenshot.RequestSchema_parse payload) as [e | prompt] eqn:Hp.
  { exec. rewrite Hp. simpl. split; [done |]. left. split; [done |].
    intros ? ? [= <-]. by rewrite Hp. }
  eapply always_pure; [exec; rewrite Hp; reflexivity |].
  apply always_try_catch. apply always_bind.
  assert (always any_answer (fun rs => returns rs /\ snd rs = s)
            (GeminiText.extractUrlFromPrompt prompt s)) as Hext.
  { unfold GeminiText.extractUrlFromPrompt, new_URL. exec.
    intros [e | response] _; simpl; [done |].
    destruct (response_text response) as [e | raw]; simpl; [done |].
    case_bool_decide; simpl; [done |].
    destruct (URL_href (trim raw)); simpl; [done |].
    destruct (negb _ && negb _); simpl; [| done].
    by destruct (URL_href _). }
  eapply always_mono; [| exact Hext].
  intros [[extracted | e] s'] [Hr Hs]; simpl in Hr, Hs; [subst s' | done].
  assert (exists payload0 prompt0,
            (inr payload : thrown + JSON) = inr payload0
            /\ AiScreenshot.RequestSchema_parse payload0 = inr prompt0) as Hvalid
    by (by exists payload, prompt).
  destruct (extracted ≫= _) as [url |] eqn:Hurl.
  2: { simpl. split; [done |]. right. split; [done |]. by left. }
  assert (url <> []) as Hne.
  { destruct extracted as [u |]; simpl in Hurl; [| done].
    destruct (truthy u) eqn:Ht; [| done]. injection Hurl as <-.
    by apply truthy_nonempty. }
  apply always_bind.
  eapply always_mono; [| apply fetch_response_always].
  intros [[resp | e] s'] [Hs Hd]; simpl in Hs, Hd; subst s'.
  - destruct (body resp) as [d | err] eqn:Hb; simpl.
    + destruct (Hd resp eq_refl d Hb) as [Hdne Hok]. rewrite Hok. simpl.
      split; [done |]. right. split; [done |]. right. right. by exists d, url.
    + split; [done |]. right. split; [done |]. right. left.
      destruct (truthy err) eqn:Ht; simpl; rewrite ?Ht; simpl;
        (eexists; split; [| reflexivity]); [by apply truthy_nonempty | done].
  - split; [done |]. right. split; [done |]. right. left.
    destruct e as [e |]; simpl; [| exists AiScreenshot.default_error; by split].
    destruct (truthy (message e)) eqn:Ht; (eexists; split; [| reflexivity]);
      [by apply truthy_nonempty | done].
Qed.

(** X10.  The route that extracts the URL with Gemini always answers and
    never throws, and leaves the state alone.  Its status is 200, 400 or 500,
    and 200 exactly when the body is a success; the text of a failure is never
    empty; a success carries a payload and a URL, neither empty; and the
    answer is the 400 for an invalid body exactly when the schema does not
    accept the request. *)
Theorem ai_route_outcome {S} (req_json : thrown + JSON) (s : S) :
  always any_answer
    (normally (fun resp s' =>
       s' = s
       /\ (status resp = 200 \/ status resp = 400 \/ status resp = 500)
       /\ (status resp = 200 <-> AiScreenshot.success (body resp) = true)
       /\ (forall e, body resp = AiScreenshot.Failure e -> e <> [])
       /\ (forall d u, body resp = AiScreenshot.Success d u -> d <> [] /\ u <> [])
       /\ ((forall payload prompt, req_json = inr payload ->
               AiScreenshot.RequestSchema_parse payload <> inr prompt)
           <-> resp = json_status (AiScreenshot.Failure AiScreenshot.invalid_body) 400)))
    (AiScreenshot.POST req_json s).
Proof.
  eapply always_mono; [| apply ai_post_always].
  intros [[resp | e] s'] Hn; simpl in Hn; [| done].
  destruct Hn as [-> Hcases]. simpl. split; [done |].
  destruct Hcases as [[-> Hbad]
                     | [(payload & prompt & -> & Hp)
                          [-> | [(e & He & ->) | (d & u & Hd & Hu & ->)]]]]; simpl.
  - repeat split; try done; try (by right; left). by intros e [= <-].
  - repeat split; try done; try (by right; left).
    + by intros e [= <-].
    + intros Hbad. by destruct (Hbad payload prompt).
  - repeat split; try done; try (by right; right).
    + by intros e' [= <-].
    + intros Hbad. by destruct (Hbad payload prompt).
  - repeat split; try done; try (by left).
    + by simplify_eq.
    + by simplify_eq.
    + intros Hbad. by destruct (Hbad payload prompt).
Qed.

End Ai.


Section AiRuns.
Context `{RT : Runtime}.

Lemma fetch_response_runs {S} (url : jsstring) (transport : option thrown) (r : ChildRun)
    (s : S) :
  exists got,
    runs (AiScreenshot.fetch_screenshot_response (url_body (Str url)) s)
         (RFetch transport :: spawned url transport r) (got, s)
    /\ match got with
       | Normal resp =>
           fetched url transport r = Normal (body resp)
           /\ (Screenshot.success (body resp) = true -> AiScreenshot.ok resp = true)
       | Abrupt e => fetched url transport r = Abrupt e
       end.
Proof.
  unfold AiScreenshot.fetch_screenshot_response, fetched, spawned, Screenshot.POST,
    Screenshot.RequestSchema_parse.
  destruct transport as [e |]; [exists (Abrupt e); split; [by eexists | done] |].
  destruct (zod_url url) eqn:Hz.
  - exists (Normal (respond r)). split; [eexists; exec; rewrite Hz; reflexivity |].
    split; [done |]. intros Hs. destruct (respond_status r) as [_ Hiff].
    unfold AiScreenshot.ok. by rewrite (proj2 Hiff Hs).
  - eexists (Normal _). split; [eexists; exec; rewrite Hz; reflexivity |]. done.
Qed.

(** X11.  When the reply of Gemini names a URL, the route that extracts the
    URL asks the screenshot route for it and answers with what comes back:
    the payload together with the URL, or a 500 that carries the text of the
    failure of the screenshot route (the text of a rejected [fetch] when the
    request did not get through), with a default only where that text is
    empty. *)
Theorem ai_route_forwards {S} (payload : JSON) (prompt raw url : jsstring)
    (transport : option thrown) (r : ChildRun) (s : S) :
  AiScreenshot.RequestSchema_parse payload = inr prompt ->
  trim raw <> sentinel -> URL_href (trim raw) = Some url -> url <> [] ->
  runs (AiScreenshot.POST (inr payload) s)
       (text_reply raw :: RFetch transport :: spawned url transport r)
       (Normal (ai_answer url (fetched url transport r)), s).
Proof.
  intros Hp Hraw Hhref Hurl. apply truthy_nonempty in Hurl.
  unfold AiScreenshot.POST.
  eapply runs_pure; [exec; rewrite Hp; reflexivity |].
  destruct (fetch_response_runs (S := S) url transport r s) as (got & Hrun & Hgot).
  assert (forall script' (out : Completion (Response AiScreenshot.Body) * S),
            runs ((let* screenshotResponse :=
                     AiScreenshot.fetch_screenshot_response (url_body (Str url)) in
                   match body screenshotResponse with
                   | Screenshot.Success base64Data =>
                       if AiScreenshot.ok screenshotResponse
                       then ret (json (AiScreenshot.Success base64Data url))
                       else throw (ThrownError (mkError AiScreenshot.fetch_failed))
                   | Screenshot.Failure error =>
                       throw (ThrownError
                                (mkError (if truthy error then error
                                          else AiScreenshot.fetch_failed)))
                   end)%prog s) script' out ->
            runs ((let* extracted := GeminiText.extractUrlFromPrompt prompt in
                   match extracted ≫= (fun s0 => if truthy s0 then Some s0 else None) with
                   | None =>
                       ret (json_status (AiScreenshot.Failure AiScreenshot.no_url) 400)
                   | Some url0 =>
                       let* screenshotResponse :=
                         AiScreenshot.fetch_screenshot_response (url_body (Str url0)) in
                       match body screenshotResponse with
                       | Screenshot.Success base64Data =>
                           if AiScreenshot.ok screenshotResponse
                           then ret (json (AiScreenshot.Success base64Data url0))
                           else throw (ThrownError (mkError AiScreenshot.fetch_failed))
                       | Screenshot.Failure error =>
                           throw (ThrownError
                                    (mkError (if truthy error then error
                                              else AiScreenshot.fetch_failed)))
                       end
                   end)%prog s) (text_reply raw :: script') out) as Hbody.
  { intros script' out Hout.
    eapply (runs_bind _ _ _ [text_reply raw]); [by apply extract_runs_found |].
    simpl. by rewrite Hurl. }
  destruct got as [resp | e].
  - destruct Hgot as [Hf Hok]. rewrite Hf.
    destruct (body resp) as [d | err] eqn:Hb; simpl.
    + apply runs_try_catch. apply Hbody.
      rewrite <- (app_nil_r (RFetch transport :: spawned url transport r)).
      eapply runs_bind; [exact Hrun |]. rewrite Hb, Hok by done. apply runs_ret.
    + rewrite <- (app_nil_r (text_reply raw :: RFetch transport :: spawned url transport r)).
      eapply runs_try_catch_abrupt.
      * apply Hbody.
        rewrite <- (app_nil_r (RFetch transport :: spawned url transport r)).
        eapply runs_bind; [exact Hrun |]. rewrite Hb. apply runs_ret.
      * simpl. destruct (truthy err) eqn:Ht; simpl; rewrite ?Ht; apply runs_ret.
  - rewrite Hgot.
    rewrite <- (app_nil_r (text_reply raw :: RFetch transport :: spawned url transport r)).
    eapply runs_try_catch_abrupt.
    + apply Hbody. by apply runs_bind_abrupt.
    + destruct e; apply runs_ret.
Qed.


End AiRuns.


(** ** The revision of the screenshot route that throws its 400 *)

(** X13.  The revision of the screenshot route that validates inside a
    function expression behaves as the other revision on every request the
    schema accepts: the same child process, the same response.  On every
    other request, where the other revision returns a 400 response, this one
    builds a 400 response and throws it, so that [POST] rejects and returns
    no response at all. *)
Theorem throwing_revision_rejects `{RT : Runtime} {S} (req_json : thrown + JSON) (s : S) :
  (forall payload url,
     req_json = inr payload -> Screenshot.RequestSchema_parse payload = inr url ->
     ScreenshotThrowing.POST req_json s
     = Do (Spawn (str "node") [script_path; url])
          (fun r => Ret (Normal (ScreenshotThrowing.Resolved (respond r)), s))
     /\ Screenshot.POST req_json s
        = Do (Spawn (str "node") [script_path; url])
             (fun r => Ret (Normal (respond r), s)))
  /\ ((forall payload url, req_json = inr payload ->
                           Screenshot.RequestSchema_parse payload <> inr url) ->
      (exists e,
         ScreenshotThrowing.POST req_json s
         = Ret (Normal (ScreenshotThrowing.Rejected
                          (json_status (Screenshot.Failure e) 400)), s))
      /\ exists e,
           Screenshot.POST req_json s
           = Ret (Normal (json_status (Screenshot.Failure e) 400), s)).
Proof.
  split.
  - intros payload url -> Hp.
    unfold ScreenshotThrowing.POST, Screenshot.POST. exec. rewrite Hp. by simpl.
  - intros Hbad. unfold ScreenshotThrowing.POST, Screenshot.POST. exec.
    destruct req_json as [e | payload]; simpl; [by eauto |].
    destruct (Screenshot.RequestSchema_parse payload) as [e | url] eqn:Hp; simpl;
      [by eauto |].
    by destruct (Hbad payload url).
Qed.

(** ** The two function-calling revisions of the chat route *)

Section Agree.
Context `{RT : Runtime}.

Lemma fetch_screenshot_throws {S} (sent : JSON) (s : S) :
  always fetch_error_has_message
    (fun rs => snd rs = s
               /\ forall e, fst rs = Abrupt (ThrownError e) -> message e <> [])
    (fetch_screenshot sent s).
Proof.
  unfold fetch_screenshot. exec. intros [[e |] |] Hx; simpl in *.
  - split; [done |]. by intros ? [= <-].
  - split; [done |]. by intros ? [=].
  - unfold Screenshot.POST. exec.
    destruct (Screenshot.RequestSchema_parse sent); simpl; [by split |].
    intros r _. by split.
Qed.

Lemma compose_agree (response : FunctionCallResult)
    (store : gmap jsstring ChatSession) :
  related fetch_error_has_message (fun a b => a = b /\ returns a)
    (Chat.compose response (Chat.url_argument response) (Chat.wants_screenshot response)
                  store)
    (ChatLet.compose response (Chat.url_argument response)
                     (Chat.wants_screenshot response) store).
Proof.
  assert (forall c : jsstring,
            related fetch_error_has_message
              (fun a b : Completion ChatMessage * gmap jsstring ChatSession =>
                 a = b /\ returns a)
              ((let* now := call NewDate in ret (plain assistant c now))%prog store)
              ((let* now := call NewDate in ret (plain assistant c now))%prog store))
    as Hplain.
  { intros c. exec. constructor. intros now _. by constructor. }
  unfold Chat.compose, ChatLet.compose.
  destruct (Chat.wants_screenshot response); simpl; [| apply Hplain].
  destruct (Chat.url_argument response) as [| | url]; simpl; try apply Hplain.
  destruct (truthy url) eqn:Ht; [| apply Hplain].
  unfold try_catch.
  eapply related_pbind
    with (R1 := fun a b => a = b /\ forall e, fst a = Abrupt (ThrownError e) ->
                                              message e <> []).
  - unfold bind. eapply related_pbind_same; [apply fetch_screenshot_throws |].
    intros [[[d | err] | e] s'] [Hs He]; simpl in Hs, He; simpl.
    + constructor. intros now _. constructor. by split.
    + constructor. intros now _. constructor. by split.
    + constructor. split; [done |]. intros e0 [= ->]. by apply (He e0).
  - intros [[m | e] s'] b [<- He]; simpl in He; simpl.
    + by constructor.
    + destruct e as [e |].
      * specialize (He e eq_refl). apply truthy_nonempty in He as ->.
        constructor. intros now _. by constructor.
      * constructor. intros now _. by constructor.
Qed.

(** X14.  The two function-calling revisions of the chat route (the one
    that assigns to [let] variables and the one made of function expressions)
    make the same calls and end with the same response and the same store, for
    every request and every answer of the outside world, as long as whatever
    is thrown (by [req.json()], by the schema, by a rejected [fetch]) has a
    message that is not empty; the two revisions differ only in the default
    they use for an empty message. *)
Theorem chat_revisions_agree (req_json : thrown + JSON)
    (store : gmap jsstring ChatSession) :
  rejection_has_message req_json ->
  agree fetch_error_has_message (Chat.POST req_json store) (ChatLet.POST req_json store).
Proof.
  intros Hrej. unfold agree, Chat.POST, ChatLet.POST.
  destruct req_json as [e | payload].
  { exec. destruct e as [e |]; [| by constructor].
    assert (message e <> []) as He by (apply Hrej; by left).
    apply truthy_nonempty in He as ->. by constructor. }
  destruct (MessageSchema_parse payload) as [e | [message sessionId]] eqn:Hparse.
  { exec. rewrite Hparse. simpl. destruct e as [e |]; [| by constructor].
    assert (JS.message e <> []) as He by (apply Hrej; right; by exists payload).
    apply truthy_nonempty in He as ->. by constructor. }
  unfold try_catch.
  eapply related_pbind with (R1 := fun a b => a = b /\ returns a).
  2: { intros [[a | e] s'] b [<- Hr]; [by constructor | done]. }
  eapply (related_bind_same _ (fun body s' => body = payload /\ s' = store)); [done |].
  intros body s0 [-> ->].
  eapply (related_bind_same _ (fun v s' => v = (message, sessionId) /\ s' = store));
    [by rewrite Hparse |].
  intros v s0 [-> ->]. cbn [fst snd].
  eapply (related_bind_same _ (fun cs s' => cs = store /\ s' = store)); [done |].
  intros cs s0 [-> ->].
  eapply (related_bind_same _ (fun _ _ => True)).
  { destruct (usable sessionId ≫= _) as [[key old] |]; by exec. }
  intros resolved s0 _.
  eapply (related_bind_same _ (fun _ _ => True)); [by exec |]. intros now s1 _.
  eapply (related_bind_same _ (fun _ _ => True)); [by exec |]. intros _ s2 _.
  eapply (related_bind_same _ (fun _ _ => True)).
  { eapply always_mono; [| apply generate_tools_always]. by intros [[] ?]. }
  intros response s3 _. unfold bind.
  eapply related_pbind; [apply compose_agree |].
  intros [[a | e] s4] b [<- Hr]; [| done]. simpl. by constructor.
Qed.

End Agree.


Section TwoCall.
Context `{RT : Runtime} (ok : forall c, Answer c -> Prop).

Lemma extract_state {S} (prompt : jsstring) (s : S) :
  always ok (normally (fun _ s' => s' = s)) (GeminiText.extractUrlFromPrompt prompt s).
Proof.
  unfold GeminiText.extractUrlFromPrompt, new_URL. exec.
  intros [e | response] _; simpl; [done |].
  destruct (response_text response) as [e | raw]; simpl; [done |].
  case_bool_decide; simpl; [done |].
  destruct (URL_href (trim raw)); simpl; [done |].
  destruct (negb _ && negb _); simpl; [| done].
  by destruct (URL_href _).
Qed.

Lemma detect_state {S} (message : jsstring) (s : S) :
  always ok (normally (fun _ s' => s' = s)) (GeminiText.detectScreenshotIntent message s).
Proof.
  unfold GeminiText.detectScreenshotIntent. exec.
  intros [e | response] _; simpl; [done |].
  by destruct (response_text response).
Qed.

Lemma generate_text_state (history : list Heap.ref) (st : Heap.State) :
  always ok (normally (fun _ st' => st' = primed history st))
    (GeminiText.generateChatResponse history st).
Proof.
  unfold GeminiText.generateChatResponse, primed. apply always_try_catch. step.
  eapply always_bind_normally
    with (P := fun _ st' => st' = primed history st).
  { unfold primed.
    destruct (Heap.filter_refs _ _ _) as [| first [| ? ?]]; try done.
    destruct (Heap.objects st !! first) as [m |] eqn:Hm; [| done].
    case_bool_decide; [| done].
    unfold Heap.set_content, modify. simpl. by rewrite Hm. }
  intros _ st' ->. fold (primed history st). step. step.
  intros [e | response] _; simpl; [done |].
  step. by destruct (response_text response).
Qed.

Lemma branch_state (message : jsstring) (st : Heap.State) :
  always ok (normally (fun am st' => st' = st /\ role (fst am) = assistant))
    (ChatTwoCall.screenshot_branch message st).
Proof.
  unfold ChatTwoCall.screenshot_branch.
  eapply always_bind_normally; [apply extract_state |].
  intros extracted s' ->.
  destruct (extracted ≫= _) as [url |].
  - eapply always_bind_normally
      with (P := fun a st' => st' = st /\ role a = assistant); [| by intros a s' [-> ?]].
    apply always_try_catch. unfold bind. apply always_pbind.
    eapply always_mono; [| apply (fetch_screenshot_always ok)].
    intros [[[d | err] | e] s'] [Hs Hd]; simpl in Hs; subst s'; simpl;
      by intros now _.
  - exec. by intros now _.
Qed.

Lemma primed_sessions (history : list Heap.ref) (st : Heap.State) :
  Heap.chatSessions (primed history st) = Heap.chatSessions st.
Proof.
  unfold primed. destruct (Heap.filter_refs _ _ _) as [| first [| ? ?]]; try done.
  destruct (Heap.objects st !! first); [| done]. by case_bool_decide.
Qed.

(** Every execution of [POST] ends as [two_call_turn_outcome] describes. *)
Lemma two_call_post_turn (st : Heap.State) (req_json : thrown + JSON) :
  always ok (two_call_turn_outcome ok st req_json) (ChatTwoCall.POST req_json st).
Proof.
  unfold ChatTwoCall.POST.
  apply always_try_catch.
  destruct req_json as [e | payload].
  { exec. left. eexists. split; [reflexivity | done]. }
  destruct (MessageSchema_parse payload) as [e | [message sessionId]] eqn:Hparse.
  { exec. rewrite Hparse. simpl. left. eexists. split; [reflexivity |].
    intros ? ? [= <-]. by rewrite Hparse. }
  step. step. rewrite Hparse. cbn [always await ret]. step. apply always_bind.
  assert (forall key base (Q : _ -> Prop),
    (forall now a u (i : bool), role a = assistant ->
       let n := length (Heap.objects st) in
       let st2 :=
         Heap.mkState (Heap.objects st ++ [plain user message now])
                      (<[key := ChatTwoCall.push base n]> (Heap.chatSessions st)) in
       let st3 := if i then st2 else primed (Heap.messages base ++ [n]) st2 in
       Q (Normal (json (Turn (Heap.id base) a u i)),
          Heap.mkState
            (Heap.objects st3 ++ [a])
            (<[key := ChatTwoCall.push (ChatTwoCall.push base n)
                                       (length (Heap.objects st3))]>
               (Heap.chatSessions st)))) ->
    always ok
      (fun rs => match rs with
                 | (Normal a0, s0) => Q (Normal a0, s0)
                 | (Abrupt e, s0) =>
                     Q (Normal (json_status
                                  (Failure match e with
                                           | ThrownError e0 =>
                                               if truthy (JS.message e0)
                                               then JS.message e0 else default_error
                                           | ThrownOther => default_error
                                           end) 500), s0)
                 end)
      ((let* now := call NewDate in
        let* userMessage := Heap.new_object (plain user message now) in
        let* _ := ChatTwoCall.save key (ChatTwoCall.push base userMessage) in
        let* isScreenshotIntent := GeminiText.detectScreenshotIntent message in
        let* composed :=
          if isScreenshotIntent then ChatTwoCall.screenshot_branch message
          else
            let* responseText :=
              GeminiText.generateChatResponse
                (Heap.messages (ChatTwoCall.push base userMessage)) in
            let* now := call NewDate in
            ret (plain assistant responseText now, None) in
        let* assistantMessage := Heap.new_object (fst composed) in
        let* _ :=
          ChatTwoCall.save key (ChatTwoCall.push (ChatTwoCall.push base userMessage)
                                                 assistantMessage) in
        ret (json (Turn (Heap.id (ChatTwoCall.push (ChatTwoCall.push base userMessage)
                                                   assistantMessage))
                        (fst composed) (ChatTwoCall.nullable (snd composed))
                        isScreenshotIntent)))%prog
         (Heap.mkState (Heap.objects st) (<[key := base]> (Heap.chatSessions st)))))
    as Hrest.
  { intros key base Q HQ.
    step. intros now _. step. step.
    eapply always_bind_normally; [apply detect_state |].
    intros intent s' ->.
    destruct intent.
    - eapply always_bind_normally; [apply branch_state |].
      intros [a extracted] s' [-> Hrole]. step. step. simpl.
      rewrite insert_insert_eq.
      specialize (HQ now a (ChatTwoCall.nullable extracted) true Hrole). simpl in HQ.
      by rewrite insert_insert_eq.
    - eapply always_bind_normally
        with (P := fun c s' =>
                     role (fst c) = assistant /\ snd c = None
                     /\ s' = primed (Heap.messages base ++ [length (Heap.objects st)])
                                (Heap.mkState
                                   (Heap.objects st ++ [plain user message now])
                                   (<[key := ChatTwoCall.push base (length (Heap.objects st))]>
                                      (<[key := base]> (Heap.chatSessions st))))).
      + eapply always_bind_normally; [apply generate_text_state |].
        intros responseText s' ->. step. intros now' _. simpl. done.
      + intros [a extracted] s' (Hrole & Hnone & ->). simpl in Hrole, Hnone. subst extracted.
        step. step. simpl. rewrite primed_sessions. simpl.
        rewrite !insert_insert_eq.
        specialize (HQ now a Null false Hrole). simpl in HQ.
        by rewrite ?insert_insert_eq in HQ. }
  destruct (usable sessionId ≫= _) as [[key old] |] eqn:Hres.
  - step. intros now _. step. apply Hrest.
    intros now' a u i Hrole n st2 st3. right.
    apply bind_Some in Hres as (s & Hs & Hl).
    apply fmap_Some in Hl as (old' & Hold & [= <- <-]).
    exists payload, message, sessionId, key, (ChatTwoCall.touch old now), now', a, u, i.
    repeat split; try done.
    left. by exists old, now.
  - step. intros key Hkey. step. intros created _. step. intros updated _. step.
    apply Hrest.
    intros now' a u i Hrole n st2 st3. right.
    exists payload, message, sessionId, key, (Heap.mkSession key [] created updated),
           now', a, u, i.
    repeat split; try done.
    right. exists created, updated. repeat split; try done.
    destruct (usable sessionId) as [s |]; simpl in *; [| done].
    by destruct (Heap.chatSessions st !! s).
Qed.

End TwoCall.


(** The state after [generateChatResponse] looked at a session whose last
    reference is to a user message just appended: that message is the one
    rewritten, when no other message of the session is a user or assistant
    message, and no object is rewritten otherwise. *)
Lemma primed_appended (objects : list ChatMessage)
    (sessions : gmap jsstring Heap.Session) (refs : list Heap.ref)
    (message : jsstring) (now : Date) :
  let st2 := Heap.mkState (objects ++ [plain user message now]) sessions in
  Heap.objects (primed (refs ++ [length objects]) st2)
  = objects
    ++ [plain user
          (match Heap.filter_refs st2
                   (fun msg => bool_decide (role msg = user \/ role msg = assistant)) refs
           with
           | [] => GeminiText.with_context message
           | _ :: _ => message
           end) now].
Proof.
  intros st2. unfold primed.
  assert (Heap.filter_refs st2
            (fun msg => bool_decide (role msg = user \/ role msg = assistant))
            (refs ++ [length objects])
          = Heap.filter_refs st2
              (fun msg => bool_decide (role msg = user \/ role msg = assistant)) refs
            ++ [length objects]) as ->.
  { unfold Heap.filter_refs. rewrite filter_app. f_equal.
    rewrite filter_cons_True; [done |]. simpl.
    rewrite lookup_app_r by lia. rewrite Nat.sub_diag. by simpl. }
  destruct (Heap.filter_refs st2 _ refs) as [| o [| o' l]]; simpl; try done.
  rewrite lookup_app_r by lia. rewrite Nat.sub_diag. simpl.
  rewrite insert_app_r_alt by lia. by rewrite Nat.sub_diag.
Qed.

Lemma filter_refs_found (objects extra : list ChatMessage)
    (sessions : gmap jsstring Heap.Session) (p : ChatMessage -> bool)
    (refs : list Heap.ref) (o : Heap.ref) (m : ChatMessage) :
  o ∈ refs -> objects !! o = Some m -> p m = true ->
  Heap.filter_refs (Heap.mkState (objects ++ extra) sessions) p refs <> [].
Proof.
  intros Ho Hm Hp Hnil.
  assert (o ∈ Heap.filter_refs (Heap.mkState (objects ++ extra) sessions) p refs) as Hin.
  { unfold Heap.filter_refs. apply list_elem_of_filter. split; [| done].
    simpl. rewrite (lookup_app_l_Some _ _ _ _ Hm). simpl. rewrite Hp. simpl. tauto. }
  rewrite Hnil in Hin. by apply elem_of_nil in Hin.
Qed.

Lemma filter_refs_none (objects extra : list ChatMessage)
    (sessions : gmap jsstring Heap.Session) (p : ChatMessage -> bool)
    (refs : list Heap.ref) :
  Forall (fun o => exists m, objects !! o = Some m /\ p m = false) refs ->
  Heap.filter_refs (Heap.mkState (objects ++ extra) sessions) p refs = [].
Proof.
  intros Hall. unfold Heap.filter_refs.
  induction Hall as [| o l (m & Hm & Hp) Hl IH]; [done |].
  rewrite filter_cons_False; [exact IH |]. simpl.
  rewrite (lookup_app_l_Some _ _ _ _ Hm). simpl. rewrite Hp. simpl. tauto.
Qed.

(** X15.  What a turn of the two-call revision stores, for a request the
    schema accepts and whatever the outside world answers.  The turn appends
    exactly two objects, the user message and the assistant message it
    returns, changes no object that was there before, and the session it
    returns holds the references it held followed by the two new ones.  The
    stored user message has the text sent, or that text behind the context
    preamble; it has the text sent whenever the turn is a screenshot request
    and whenever the session already held a user or assistant message, and
    the preamble whenever the turn is not a screenshot request and the
    session held none (only system messages, or nothing). *)
Theorem two_call_turn_stores `{RT : Runtime} (st : Heap.State) (payload : JSON)
    (message : jsstring) (sessionId : value) :
  MessageSchema_parse payload = inr (message, sessionId) ->
  always any_answer
    (fun rs =>
       exists sid a u (i : bool) stored key session,
         fst rs = Normal (json (Turn sid a u i))
         /\ Heap.objects (snd rs) = Heap.objects st ++ [stored; a]
         /\ role stored = user
         /\ (content stored = message
             \/ content stored = GeminiText.with_context message)
         /\ (i = true -> content stored = message)
         /\ ((exists o m, o ∈ heap_history_of st sessionId
                          /\ Heap.objects st !! o = Some m /\ role m <> system) ->
             content stored = message)
         /\ (i = false ->
             Forall (fun o => exists m, Heap.objects st !! o = Some m /\ role m = system)
                    (heap_history_of st sessionId) ->
             content stored = GeminiText.with_context message)
         /\ Heap.chatSessions (snd rs) !! key = Some session
         /\ Heap.id session = sid
         /\ Heap.messages session
            = heap_history_of st sessionId
              ++ [length (Heap.objects st); Datatypes.S (length (Heap.objects st))])
    (ChatTwoCall.POST (inr payload) st).
Proof.
  intros Hparse. eapply always_mono; [| apply two_call_post_turn].
  intros [r st'] Hout. simpl.
  destruct Hout as [(e & _ & Hbad)
                   | (payload' & message' & sessionId' & key & base & now & a & u & i
                      & [= <-] & Hparse' & Hres & Hrole & Hrs)].
  { by destruct (Hbad payload (message, sessionId)). }
  rewrite Hparse in Hparse'. injection Hparse' as <- <-.
  assert (Heap.messages base = heap_history_of st sessionId) as Hhist.
  { unfold heap_history_of.
    destruct Hres as [(old & t & Hus & Hold & ->) | (c & t & Hnone & _ & ->)]; simpl.
    - rewrite Hus. simpl. by rewrite Hold.
    - by rewrite Hnone. }
  simpl in Hrs. injection Hrs as -> ->.
  set (n := length (Heap.objects st)).
  set (st2 := Heap.mkState (Heap.objects st ++ [plain user message now])
                           (<[key := ChatTwoCall.push base n]> (Heap.chatSessions st))).
  pose proof (primed_appended (Heap.objects st)
                (<[key := ChatTwoCall.push base n]> (Heap.chatSessions st))
                (Heap.messages base) message now) as Hprimed.
  fold n st2 in Hprimed. cbv zeta in Hprimed.
  set (valid := Heap.filter_refs st2
                  (fun msg => bool_decide (role msg = user \/ role msg = assistant))
                  (Heap.messages base)) in *.
  assert ((exists o m, o ∈ heap_history_of st sessionId
                       /\ Heap.objects st !! o = Some m /\ role m <> system) ->
          valid <> []) as Hsome.
  { intros (o & m & Ho & Hm & Hr). rewrite <- Hhist in Ho.
    eapply filter_refs_found; [exact Ho | exact Hm |].
    apply bool_decide_eq_true_2. destruct (role m); [by left | by right | done]. }
  assert (Forall (fun o => exists m, Heap.objects st !! o = Some m /\ role m = system)
                 (heap_history_of st sessionId) -> valid = []) as Hnone.
  { rewrite <- Hhist. intros Hall. apply filter_refs_none.
    eapply Forall_impl; [exact Hall |]. intros o (m & Hm & Hr). exists m.
    split; [done |]. rewrite Hr. apply bool_decide_eq_false_2. by intros [? | ?]. }
  destruct i.
  - exists (Heap.id base), a, u, true, (plain user message now), key,
      (ChatTwoCall.push (ChatTwoCall.push base n)
                        (length (Heap.objects st ++ [plain user message now]))).
    simpl. split; [done |]. split; [by rewrite <- app_assoc |].
    split; [done |]. split; [by left |]. split; [done |]. split; [done |].
    split; [done |]. split; [apply lookup_insert_eq |]. split; [done |].
    rewrite Hhist, <- app_assoc, length_app. simpl. by rewrite Nat.add_1_r.
  - exists (Heap.id base), a, u, false,
      (plain user match valid with
                  | [] => GeminiText.with_context message
                  | _ :: _ => message
                  end now), key,
      (ChatTwoCall.push (ChatTwoCall.push base n)
                        (length (Heap.objects (primed (Heap.messages base ++ [n]) st2)))).
    simpl. split; [done |]. rewrite Hprimed. split; [by rewrite <- app_assoc |].
    split; [done |]. split; [destruct valid; [by right | by left] |].
    split; [done |].
    split; [intros Hex; specialize (Hsome Hex); by destruct valid |].
    split; [intros _ Hall; by rewrite (Hnone Hall) |].
    split; [apply lookup_insert_eq |]. split; [done |].
    rewrite Hhist, <- app_assoc, length_app. simpl. by rewrite Nat.add_1_r.
Qed.

(** X16.  The two-call revision of the chat route always answers, with 200
    and a success body exactly when the schema accepts the request, whatever
    Gemini, [fetch] and the child process do, and with 500 otherwise; a
    request that is not accepted leaves the sessions and the objects as they
    were. *)
Theorem two_call_post_succeeds_iff_valid `{RT : Runtime} (st : Heap.State)
    (req_json : thrown + JSON) :
  always any_answer
    (fun rs =>
       exists resp,
         fst rs = Normal resp
         /\ (status resp = 200 \/ status resp = 500)
         /\ (status resp = 200 <-> success (body resp) = true)
         /\ (success (body resp) = true
             <-> exists payload parsed,
                   req_json = inr payload /\ MessageSchema_parse payload = inr parsed)
         /\ (success (body resp) = false -> snd rs = st))
    (ChatTwoCall.POST req_json st).
Proof.
  eapply always_mono; [| apply two_call_post_turn].
  intros [r st'] Hout. simpl.
  destruct Hout as [(e & [= -> ->] & Hbad)
                   | (payload & message & sessionId & key & base & now & a & u & i
                      & -> & Hparse & _ & _ & Hrs)].
  - eexists. split; [done |]. simpl. repeat split; try done; try (by right).
    intros (payload & parsed & -> & Hp). by destruct (Hbad payload parsed).
  - simpl in Hrs. injection Hrs as -> ->.
    eexists. split; [done |]. simpl. repeat split; try done; try (by left).
    intros _. by exists payload, (message, sessionId).
Qed.

(** X17.  [generateChatResponse] of the text revision always returns, and
    leaves the sessions and the number of objects as they were.  Every object
    keeps its role, its timestamp and its screenshot fields, and its content
    too, except that the content of one object may now stand behind the
    context preamble: the only user or assistant message of the history, when
    it is a user message.  When the history does not hold exactly one user or
    assistant message, the state is as it was. *)
Theorem generate_text_frame `{RT : Runtime} (history : list Heap.ref) (st : Heap.State) :
  always any_answer
    (normally (fun _ st' =>
       Heap.chatSessions st' = Heap.chatSessions st
       /\ length (Heap.objects st') = length (Heap.objects st)
       /\ (forall o m, Heap.objects st !! o = Some m ->
             exists m',
               Heap.objects st' !! o = Some m'
               /\ role m' = role m /\ timestamp m' = timestamp m
               /\ isScreenshot m' = isScreenshot m
               /\ screenshotUrl m' = screenshotUrl m
               /\ screenshotBase64 m' = screenshotBase64 m
               /\ (content m' = content m
                   \/ (content m' = GeminiText.with_context (content m)
                       /\ role m = user
                       /\ Heap.filter_refs st conversational history = [o])))
       /\ (length (Heap.filter_refs st conversational history) <> 1%nat -> st' = st)))
    (GeminiText.generateChatResponse history st).
Proof.
  eapply always_mono; [| apply generate_text_state].
  intros [[_t | e] st'] Hn; simpl in *; [subst st' | done].
  unfold primed. fold conversational.
  destruct (Heap.filter_refs st conversational history) as [| first [| ? ?]] eqn:Hf;
    try (repeat split; try done; intros o m Hm; exists m; repeat split; try done;
         by left).
  destruct (Heap.objects st !! first) as [m0 |] eqn:Hm0;
    try (repeat split; try done; intros o m Hm; exists m; repeat split; try done;
         by left).
  case_bool_decide as Hrole;
    try (repeat split; try done; intros o m Hm; exists m; repeat split; try done;
         by left).
  simpl. split; [done |]. split; [by rewrite length_insert |]. split; [| done].
  intros o m Hm. destruct (decide (o = first)) as [-> | Hne].
  - rewrite Hm0 in Hm. injection Hm as <-.
    eexists. split; [apply list_lookup_insert_eq; by eapply lookup_lt_Some |].
    simpl. repeat split; try done. by right.
  - exists m. rewrite list_lookup_insert_ne by done. repeat split; try done. by left.
Qed.

Section Scripts.
Import Process ProcessNotions.
Context `{RT : Runtime} `{IN : Inspect}.

(** Both revisions of the script, for an argument the schema accepts, by the
    answers of the MCP client. *)
Ltac run_cases w Hz :=
  unfold Script.run, ScriptFn.run, ScriptFn.withErrorHandling, ScriptFn.validateUrl,
    ScriptFn.executeScreenshot, ScriptFn.withClientDisconnection,
    ScriptFn.navigateAndScreenshot, ScriptFn.extractBase64Data, ScriptFn.logError,
    ScriptFn.writeOutput, captured, attempted, connected, UrlSchema_parse,
    navigate_arguments, capture_arguments;
  unfold Process.bind, Process.try_catch, Process.try_finally, Process.await,
    console_error, console_log, stdout_write, connect, callTool, disconnect,
    client_state, emit, Process.ret, Process.throw, exit;
  rewrite ?Hz; simpl;
  destruct (world_connect w) as [? |]; simpl;
  [| destruct (world_callTool w _ (JObject [(_, JString _)])) as [? | ?]; simpl;
     [| destruct (world_callTool w _ (JObject [(_, JBool true)])) as [? | result]; simpl;
        [| destruct (image_data result) as [data |] eqn:Himage; simpl;
           [assert (truthy data = true) as Htruthy
              by (unfold image_data in Himage;
                  destruct (result_content result) as [[| item ?] |]; try done;
                  destruct (item_data item) as [d |]; try done;
                  destruct (truthy d) eqn:Ht; simpl in Himage; try done;
                  case_bool_decide; try done; by injection Himage as <-);
            rewrite ?Htruthy; simpl |]]]];
  repeat case_bool_decide; simpl;
  try (destruct (world_disconnect w) as [? |]; simpl).


(** What a run of either revision comes to, for an argument the schema
    accepts: what it writes to the standard output, how it ends, and which
    requests it makes. *)
Lemma script_summary (url : jsstring) (w : World) :
  zod_url url = true ->
  stdout_text (fst (Script.run (Some url) w)) = default [] (captured w url ≫= image_data)
  /\ snd (Script.run (Some url) w)
     = match captured w url with
       | None => Exits 1
       | Some _ =>
           if connected w then
             match world_disconnect w with
             | Some e => Throws e
             | None => Exits 0
             end
           else Exits 0
       end
  /\ requests (fst (Script.run (Some url) w))
     = attempted w url
       ++ (if connected w && bool_decide (is_Some (captured w url))
           then [Disconnect] else []).
Proof.
  intros Hz. repeat split; run_cases w Hz; rewrite ?Himage; simpl;
    try done; unfold stdout_text; simpl; rewrite ?app_nil_r; try done.
Qed.

Lemma script_fn_summary (url : jsstring) (w : World) :
  zod_url url = true ->
  stdout_text (fst (ScriptFn.run (Some url) w))
  = default [] (captured w url ≫= image_data)
  /\ snd (ScriptFn.run (Some url) w)
     = match captured w url with
       | None => Exits 1
       | Some _ =>
           if connected w then
             match world_disconnect w with
             | Some e => Exits 1
             | None => Exits 0
             end
           else Exits 0
       end
  /\ requests (fst (ScriptFn.run (Some url) w))
     = attempted w url ++ (if connected w then [Disconnect] else []).
Proof.
  intros Hz. repeat split; run_cases w Hz; rewrite ?Himage; simpl;
    try done; unfold stdout_text; simpl; rewrite ?app_nil_r; try done.
Qed.

(** X20.  An argument the schema of the script rejects (a missing one
    included) ends both revisions with the exit code 1 before any request to
    the MCP client.  The revision with one [run] function writes one line to
    the standard error and nothing to the standard output; the revision made
    of small functions also writes the validation error, through
    [console.log], to the standard output. *)
Theorem script_invalid_argument (argv2 : option jsstring) (e : thrown) (w : World) :
  UrlSchema_parse argv2 = inl e ->
  Script.run argv2 w
  = ([Stderr (line [str "Invalid URL provided:"; show argv2])], Exits 1)
  /\ ScriptFn.run argv2 w
     = ([Stdout (line [inspect_wrapped e]);
         Stderr (line [str "Invalid URL provided: " ++ show argv2])], Exits 1).
Proof.
  intros Hp.
  unfold Script.run, ScriptFn.run, ScriptFn.withErrorHandling, ScriptFn.validateUrl,
    ScriptFn.logError.
  unfold Process.bind, Process.try_catch, Process.try_finally, Process.await,
    console_error, console_log, emit, Process.ret, Process.throw, exit.
  rewrite Hp. by simpl.
Qed.

Lemma attempted_without_disconnect (w : World) (url : jsstring) :
  Disconnect ∉ attempted w url.
Proof.
  unfold attempted. intros Hin.
  apply elem_of_cons in Hin as [Hin | Hin]; [done |].
  destruct (world_connect w); [by apply elem_of_nil in Hin |].
  apply elem_of_cons in Hin as [Hin | Hin]; [done |].
  destruct (world_callTool w _ _); [by apply elem_of_nil in Hin |].
  apply elem_of_cons in Hin as [Hin | Hin]; [done |]. by apply elem_of_nil in Hin.
Qed.

(** X18.  The revision of the script with one [run] function, for an argument
    its schema accepts and whatever the MCP client answers.  What it writes to
    the standard output is the data of the image the capture begins with,
    when the connection, the navigation and the capture succeed and the
    capture begins with one, and nothing otherwise.  It ends with the exit
    code 1 exactly when one of the three fails, and then without a request to
    disconnect; otherwise with the exit code 0, unless the client reports
    that it is connected and [disconnect] throws, which nothing catches.  Its
    requests are the connection, the navigation to the URL and the capture, in
    this order up to the first that fails, followed by the request to
    disconnect exactly when all three succeeded and the client reports that
    it is connected. *)
Theorem script_contract (url : jsstring) (w : World) :
  zod_url url = true ->
  let t := fst (Script.run (Some url) w) in
  let ending := snd (Script.run (Some url) w) in
  stdout_text t = default [] (captured w url ≫= image_data)
  /\ (ending = Exits 1 <-> captured w url = None)
  /\ (captured w url <> None ->
      ending = Exits 0
      \/ (connected w = true
          /\ exists e, world_disconnect w = Some e /\ ending = Throws e))
  /\ (Disconnect ∈ requests t <-> connected w = true /\ captured w url <> None)
  /\ exists rest,
       requests t = attempted w url ++ rest /\ (rest = [] \/ rest = [Disconnect]).
Proof.
  intros Hz. destruct (script_summary url w Hz) as (Hout & Hend & Hreq).
  cbv zeta. rewrite Hend, Hreq. split; [exact Hout |].
  pose proof (attempted_without_disconnect w url) as Hnot.
  remember (attempted w url) as tried eqn:Htried. clear Htried.
  destruct (captured w url) as [result |]; destruct (connected w); simpl;
    try destruct (world_disconnect w) as [e |]; rewrite ?app_nil_r;
    repeat split; try done; try (by intros [? ?]); try (by left);
    try (by eexists; split; [by rewrite ?app_nil_r | by left]);
    try (by eexists; split; [reflexivity | by right]);
    try (intros _; apply elem_of_app; right; by apply list_elem_of_singleton).
  intros _. right. split; [done |]. by exists e.
Qed.

(** X19.  The revision of the script made of small functions, for an argument
    its schema accepts and whatever the MCP client answers.  It writes to the
    standard output what the other revision writes.  It always ends with an
    exit code, 0 or 1, and never by an error nothing catches: with 0 exactly
    when the connection, the navigation and the capture succeed and, where
    the client reports that it is connected, [disconnect] returns.  Its
    requests are those of the other revision, followed by the request to
    disconnect exactly when the client reports that it is connected, also
    after a failure. *)
Theorem script_fn_contract (url : jsstring) (w : World) :
  zod_url url = true ->
  let t := fst (ScriptFn.run (Some url) w) in
  let ending := snd (ScriptFn.run (Some url) w) in
  stdout_text t = default [] (captured w url ≫= image_data)
  /\ stdout_text t = stdout_text (fst (Script.run (Some url) w))
  /\ (ending = Exits 0 \/ ending = Exits 1)
  /\ (ending = Exits 0
      <-> captured w url <> None /\ (connected w = false \/ world_disconnect w = None))
  /\ (Disconnect ∈ requests t <-> connected w = true)
  /\ exists rest,
       requests t = attempted w url ++ rest /\ (rest = [] \/ rest = [Disconnect]).
Proof.
  intros Hz. destruct (script_fn_summary url w Hz) as (Hout & Hend & Hreq).
  destruct (script_summary url w Hz) as (Hout' & _ & _).
  cbv zeta. rewrite Hend, Hreq, Hout'. split; [exact Hout |]. split; [exact Hout |].
  pose proof (attempted_without_disconnect w url) as Hnot.
  remember (attempted w url) as tried eqn:Htried. clear Htried.
  destruct (captured w url) as [result |]; destruct (connected w); simpl;
    try destruct (world_disconnect w) as [e |]; rewrite ?app_nil_r;
    repeat split; try done; try (by intros [? ?]); try (by intros [? [? | ?]]);
    try (by left); try (by right);
    try (by eexists; split; [by rewrite ?app_nil_r | by left]);
    try (by eexists; split; [reflexivity | by right]);
    try (intros _; apply elem_of_app; right; by apply list_elem_of_singleton).
Qed.

End Scripts.

Section Pipeline.
Import Process ProcessNotions.
Context `{RT : Runtime} `{IN : Inspect}.

(** The answer of the screenshot route to a run of the child that is a run
    of the script. *)
Lemma respond_seen (t : list Event) (code : Z) (r : ChildRun) :
  seen_as t code r ->
  respond r
  = if bool_decide (code = 0) then
      if truthy (stdout_text t) then json (Screenshot.Success (stdout_text t))
      else json_status (Screenshot.Failure empty_output_text) 500
    else json_status (Screenshot.Failure (exit_failure_text (Some code) (stderr_of r))) 500.
Proof.
  intros (Herr & Hout & Hcode). pose proof (respond_cases r) as Hc.
  rewrite Herr, Hcode, Hout in Hc.
  destruct (decide (code = 0)) as [-> | Hne].
  - rewrite bool_decide_eq_true_2 in Hc by done. rewrite bool_decide_eq_true_2 by done.
    by destruct (truthy (stdout_text t)).
  - rewrite bool_decide_eq_false_2 in Hc by congruence.
    by rewrite bool_decide_eq_false_2 by done.
Qed.

Lemma image_data_truthy (result : ToolResult) (data : jsstring) :
  image_data result = Some data -> truthy data = true.
Proof.
  unfold image_data.
  destruct (result_content result) as [[| item ?] |]; try done.
  destruct (item_data item) as [d |]; try done.
  destruct (truthy d) eqn:Ht; simpl; try done.
  case_bool_decide; try done. by intros [= <-].
Qed.

(** X21.  From the request to the response, through the script with one
    [run] function.  For a request the schema of the route accepts, the route
    starts the script with the URL of the request, which the schema of the
    script accepts too.  For a run of the child that is a run of the script
    ended by [process.exit]: when the script connects, navigates and
    captures, the response carries the data of the image the capture begins
    with, or reports the empty output when it begins with none; when one of
    the three fails, the response reports the exit code 1 with what was
    collected from the standard error. *)
Theorem route_and_script {S} (payload : JSON) (url : jsstring) (w : World) (code : Z)
    (r : ChildRun) (s : S) :
  Screenshot.RequestSchema_parse payload = inr url ->
  snd (Script.run (Some url) w) = Exits code ->
  seen_as (fst (Script.run (Some url) w)) code r ->
  exists k,
    Screenshot.POST (inr payload) s = Do (Spawn (str "node") [script_path; url]) k
    /\ UrlSchema_parse (Some url) = inr url
    /\ k r
       = Ret (Normal
                match captured w url with
                | None =>
                    json_status
                      (Screenshot.Failure (exit_failure_text (Some 1) (stderr_of r))) 500
                | Some result =>
                    match image_data result with
                    | Some data => json (Screenshot.Success data)
                    | None => json_status (Screenshot.Failure empty_output_text) 500
                    end
                end, s).
Proof.
  intros Hp Hend Hseen.
  pose proof (RequestSchema_parse_valid _ _ Hp) as Hz.
  rewrite (screenshot_post_valid payload url s Hp).
  eexists. split; [reflexivity |].
  split; [unfold UrlSchema_parse; by rewrite Hz |].
  rewrite (respond_seen _ _ _ Hseen).
  destruct (script_summary url w Hz) as (-> & Hsum & _). rewrite Hend in Hsum.
  destruct (captured w url) as [result |]; simpl.
  - assert (code = 0) as ->.
    { destruct (connected w); [| by injection Hsum].
      destruct (world_disconnect w); [done | by injection Hsum]. }
    simpl. destruct (image_data result) as [data |] eqn:Hi; simpl; [| done].
    by rewrite (image_data_truthy _ _ Hi).
  - by injection Hsum as ->.
Qed.

(** X22.  The same through the script made of small functions: the response
    carries the data of the image, or reports the empty output, when the
    script connects, navigates and captures, except that a [disconnect] that
    throws now ends the script with the exit code 1, which the response
    reports even though the image was written. *)
Theorem route_and_script_fn {S} (payload : JSON) (url : jsstring) (w : World) (code : Z)
    (r : ChildRun) (s : S) :
  Screenshot.RequestSchema_parse payload = inr url ->
  snd (ScriptFn.run (Some url) w) = Exits code ->
  seen_as (fst (ScriptFn.run (Some url) w)) code r ->
  exists k,
    Screenshot.POST (inr payload) s = Do (Spawn (str "node") [script_path; url]) k
    /\ UrlSchema_parse (Some url) = inr url
    /\ k r
       = Ret (Normal
                match captured w url with
                | None =>
                    json_status
                      (Screenshot.Failure (exit_failure_text (Some 1) (stderr_of r))) 500
                | Some result =>
                    if connected w && bool_decide (is_Some (world_disconnect w)) then
                      json_status
                        (Screenshot.Failure (exit_failure_text (Some 1) (stderr_of r))) 500
                    else
                      match image_data result with
                      | Some data => json (Screenshot.Success data)
                      | None => json_status (Screenshot.Failure empty_output_text) 500
                      end
                end, s).
Proof.
  intros Hp Hend Hseen.
  pose proof (RequestSchema_parse_valid _ _ Hp) as Hz.
  rewrite (screenshot_post_valid payload url s Hp).
  eexists. split; [reflexivity |].
  split; [unfold UrlSchema_parse; by rewrite Hz |].
  rewrite (respond_seen _ _ _ Hseen).
  destruct (script_fn_summary url w Hz) as (-> & Hsum & _). rewrite Hend in Hsum.
  destruct (captured w url) as [result |]; simpl.
  - destruct (connected w); simpl.
    + destruct (world_disconnect w) as [e |]; simpl; injection Hsum as ->; simpl;
        [done |].
      destruct (image_data result) as [data |] eqn:Hi; simpl; [| done].
      by rewrite (image_data_truthy _ _ Hi).
    + injection Hsum as ->. simpl.
      destruct (image_data result) as [data |] eqn:Hi; simpl; [| done].
      by rewrite (image_data_truthy _ _ Hi).
  - by injection Hsum as ->.
Qed.

End Pipeline.



Section ShotPage.
Import ShotPage ShotNotions.
Context `{RT : Runtime}.







End ShotPage.



Section ChatPage.
Context `{RT : Runtime} (ok : forall c, Answer c -> Prop).
Import ChatPage.





End ChatPage.


Section ChatPageProperties.
Context `{RT : Runtime}.
Import ChatPage.




End ChatPageProperties.

(* ===================================================================== *)
(** ** The further properties at the inputs of the examples *)
(* ===================================================================== *)

(** A second turn of the session [s1]. *)
Lemma chat_request_carries_history_witness :
  every_call (chat_request one_session_store (Str (str "s1")) (str "again"))
    (Chat.POST (RT := Demo.runtime) (inr again_payload) one_session_store).
Proof.
  apply (chat_request_carries_history (RT := Demo.runtime) one_session_store
           again_payload (str "again") (Str (str "s1"))).
  reflexivity.
Defined.



(** The same output in two chunks or in one gives the same response. *)
Lemma respond_ignores_chunking_witness : respond chunked_run = respond whole_run.
Proof.
  destruct (respond_ignores_chunking chunked_run whole_run) as (_ & _ & Hsame & _);
    [reflexivity | reflexivity | reflexivity |].
  apply Hsame. reflexivity.
Defined.

(** Gemini names the site, the screenshot route is reached and the child
    succeeds. *)
Lemma ai_route_forwards_witness :
  runs (AiScreenshot.POST (RT := Demo.runtime) (inr prompt_payload) tt)
       [text_reply example_url; RFetch None; RSpawn whole_run]
       (Normal (json (AiScreenshot.Success (str "QUJD") example_url)), tt).
Proof.
  apply (ai_route_forwards (RT := Demo.runtime) prompt_payload
           (str "a screenshot of example.com") example_url example_url None whole_run tt).
  - reflexivity.
  - vm_compute. discriminate.
  - reflexivity.
  - discriminate.
Defined.


(** A first turn, in the two revisions of the route. *)
Lemma chat_revisions_agree_witness :
  agree fetch_error_has_message
    (Chat.POST (RT := Demo.runtime) hello_request ∅)
    (ChatLet.POST (RT := Demo.runtime) hello_request ∅).
Proof.
  apply (chat_revisions_agree (RT := Demo.runtime) hello_request ∅).
  intros e [Hthrown | (payload & [= <-] & Hparse)]; [discriminate |].
  vm_compute in Hparse. discriminate.
Defined.

(** A first turn of the two-call revision makes two objects. *)
Lemma two_call_turn_stores_witness :
  always any_answer
    (fun rs => exists stored a,
                 Heap.objects (snd rs) = [stored; a] /\ role stored = user)
    (ChatTwoCall.POST (RT := Demo.runtime) hello_request (Heap.mkState [] ∅)).
Proof.
  eapply always_mono;
    [| apply (two_call_turn_stores (RT := Demo.runtime) (Heap.mkState [] ∅)
                (JObject [(str "sessionId", JNull); (str "message", JString (str "hello"))])
                (str "hello") Null); reflexivity].
  intros rs (sid & a & u & i & stored & key & session & _ & Hobjects & Hrole & _).
  by exists stored, a.
Defined.

(** The script with one [run] function and a client that captures. *)
Lemma script_contract_witness :
  ProcessNotions.stdout_text
    (fst (Script.run (RT := Demo.runtime) (IN := DemoInspect.inspection)
            (Some example_url) capturing_world))
  = str "QUJD"
  /\ snd (Script.run (RT := Demo.runtime) (IN := DemoInspect.inspection)
            (Some example_url) capturing_world)
     = Process.Exits 0.
Proof.
  destruct (script_contract (RT := Demo.runtime) (IN := DemoInspect.inspection)
              example_url capturing_world eq_refl)
    as (Hout & _ & Hend & _).
  split; [exact Hout |].
  destruct Hend as [Hend | (_ & e & He & _)]; [discriminate | exact Hend | discriminate He].
Defined.

(** The script made of small functions and the same client. *)
Lemma script_fn_contract_witness :
  ProcessNotions.stdout_text
    (fst (ScriptFn.run (RT := Demo.runtime) (IN := DemoInspect.inspection)
            (Some example_url) capturing_world))
  = str "QUJD"
  /\ snd (ScriptFn.run (RT := Demo.runtime) (IN := DemoInspect.inspection)
            (Some example_url) capturing_world)
     = Process.Exits 0.
Proof.
  destruct (script_fn_contract (RT := Demo.runtime) (IN := DemoInspect.inspection)
              example_url capturing_world eq_refl)
    as (Hout & _ & _ & Hend & _).
  split; [exact Hout |].
  apply Hend. split; [discriminate | by right].
Defined.

(** The script started without an argument. *)
Lemma script_invalid_argument_witness :
  snd (Script.run (RT := Demo.runtime) (IN := DemoInspect.inspection) None capturing_world)
  = Process.Exits 1
  /\ snd (ScriptFn.run (RT := Demo.runtime) (IN := DemoInspect.inspection) None
            capturing_world)
     = Process.Exits 1.
Proof.
  destruct (script_invalid_argument (RT := Demo.runtime) (IN := DemoInspect.inspection)
              None (ZodError [invalid_type []]) capturing_world eq_refl)
    as [Hrun Hfn].
  by rewrite Hrun, Hfn.
Defined.

(** From the request to the image, through the script with one [run]
    function. *)
Lemma route_and_script_witness :
  exists k,
    Screenshot.POST (RT := Demo.runtime) (inr url_payload) tt
    = Do (Spawn (str "node") [@script_path Demo.runtime; example_url]) k
    /\ k whole_run = Ret (Normal (json (Screenshot.Success (str "QUJD"))), tt).
Proof.
  destruct (route_and_script (RT := Demo.runtime) (IN := DemoInspect.inspection)
              url_payload example_url capturing_world 0 whole_run tt)
    as (k & Hpost & _ & Hk).
  - reflexivity.
  - reflexivity.
  - repeat split; reflexivity.
  - exists k. split; [exact Hpost | exact Hk].
Defined.

(** The same through the script made of small functions. *)
Lemma route_and_script_fn_witness :
  exists k,
    Screenshot.POST (RT := Demo.runtime) (inr url_payload) tt
    = Do (Spawn (str "node") [@script_path Demo.runtime; example_url]) k
    /\ k whole_run = Ret (Normal (json (Screenshot.Success (str "QUJD"))), tt).
Proof.
  destruct (route_and_script_fn (RT := Demo.runtime) (IN := DemoInspect.inspection)
              url_payload example_url capturing_world 0 whole_run tt)
    as (k & Hpost & _ & Hk).
  - reflexivity.
  - reflexivity.
  - repeat split; reflexivity.
  - exists k. split; [exact Hpost | exact Hk].
Defined.


